(** * supervised-oie: the data-shaping pipeline of [src/rnn/model.py]

    A shallow embedding of the padding routine, the [Sample] classes, the
    sentence splitting and the label encoding of [RNN_model], with the
    properties of the specification that concern them.

    Python values are modelled as follows: an [int] is a [Z], a list or a
    one-dimensional array is a [list], a string is a [string], a call that
    may raise is a [result], and the only object the code mutates (the
    model's [encoder]) is threaded explicitly. *)

From Stdlib Require Import String ZArith Bool Lia RelationClasses OrdersEx
  Sorted List.
From Stdlib Require Import Permutation.
Import ListNotations.
Local Open Scope string_scope.
Local Open Scope list_scope.
Local Open Scope Z_scope.

Set Implicit Arguments.

(** ** Results of calls that may raise *)

Inductive exn : Type :=
| ValueError      (* max()/min() of nothing, labels or indices not seen *)
| NotFittedError. (* a LabelEncoder used before [fit] *)

Inductive result (A : Type) : Type :=
| Return (a : A)
| Raise (e : exn).

Arguments Return {A} a.
Arguments Raise {A} e.

Definition bind {A B : Type} (c : result A) (k : A -> result B) : result B :=
  match c with
  | Return a => k a
  | Raise e => Raise e
  end.

Notation "x <- c ;; k" := (bind c (fun x => k))
  (at level 61, c at next level, right associativity).

(** A loop body that may raise, run over a list from left to right. *)
Fixpoint for_each {A B : Type} (f : A -> result B) (l : list A)
  : result (list B) :=
  match l with
  | [] => Return []
  | a :: l' => b <- f a ;; bs <- for_each f l' ;; Return (b :: bs)
  end.

(** ** The Python built-ins the code relies on *)

Module Py.

Definition len {A : Type} (l : list A) : Z := Z.of_nat (length l).

(** [sequence[:k]]: the first [k] elements, and for a negative [k] all
    but the last [-k]. *)
Definition slice_to {A : Type} (l : list A) (k : Z) : list A :=
  if 0 <=? k then firstn (Z.to_nat k) l
  else firstn (Z.to_nat (len l + k)) l.

(** [[x] * n]: [n] copies of the one value [x], none when [n <= 0]. *)
Definition replicate {A : Type} (x : A) (n : Z) : list A :=
  repeat x (Z.to_nat n).

(** [range(lo, hi)]. *)
Definition range (lo hi : Z) : list Z :=
  map (fun k => lo + Z.of_nat k) (seq 0 (Z.to_nat (hi - lo))).

(** [max(l)] and [min(l)] raise [ValueError] on an empty argument. *)
Definition max (l : list Z) : result Z :=
  match l with
  | [] => Raise ValueError
  | x :: xs => Return (fold_left Z.max xs x)
  end.

Definition min (l : list Z) : result Z :=
  match l with
  | [] => Raise ValueError
  | x :: xs => Return (fold_left Z.min xs x)
  end.

End Py.

(** ** [Sample] and [Pad_sample] (model.py, lines 309-329) *)

Record Sample : Type := mkSample { word : Z }.

(** [Sample.encode] returns the member [self.word]. *)
Definition encode (self : Sample) : Z := word self.

(** [Pad_sample.__init__] calls [Sample.__init__(self, word = 0)]. *)
Definition Pad_sample : Sample := mkSample 0.

(** ** [pad_sequences] (model.py, lines 331-353)

    The pad factory is a Python callable; it is modelled as a function on
    an explicit state [S], so that the number and the order of its calls
    are part of the model. The loop calls it once per sequence, also when
    nothing is appended, and repeats the one value it returned. *)

Section PadSequences.

Variables (A S : Type).
Variable pad_func : S -> A * S.

(** Lines 341-346: the value [maxlen] is rebound to. *)
Definition effective_maxlen (max_value : Z) (maxlen : option Z) : Z :=
  match maxlen with
  | None => max_value
  | Some m => Z.min max_value m
  end.

(** Lines 350-351: one iteration of the loop, given the pad value. *)
Definition pad_one (maxlen : Z) (sequence : list A) (pad : A) : list A :=
  Py.slice_to sequence maxlen
    ++ Py.replicate pad (maxlen - Py.len sequence).

(** Lines 349-352. *)
Fixpoint pad_loop (maxlen : Z) (sequences : list (list A)) (st : S)
  : list (list A) * S :=
  match sequences with
  | [] => ([], st)
  | sequence :: rest =>
      let (pad, st1) := pad_func st in
      let cur_seq := pad_one maxlen sequence pad in
      let (ret, st2) := pad_loop maxlen rest st1 in
      (cur_seq :: ret, st2)
  end.

Definition pad_sequences (sequences : list (list A)) (maxlen : option Z)
  (st : S) : result (list (list A)) * S :=
  match Py.max (map Py.len sequences) with
  | Raise e => (Raise e, st)
  | Return max_value =>
      let maxlen := effective_maxlen max_value maxlen in
      let (ret, st') := pad_loop maxlen sequences st in
      (Return ret, st')
  end.

(** The maximum observed length, as a total function (0 on no input). *)
Definition max_observed (sequences : list (list A)) : Z :=
  fold_right Z.max 0 (map Py.len sequences).

(** The state in which the factory is called for the sequence at
    position [i], and the value that call returns. *)
Definition state_at (i : nat) (st : S) : S :=
  Nat.iter i (fun s => snd (pad_func s)) st.

Definition pad_at (i : nat) (st : S) : A := fst (pad_func (state_at i st)).

End PadSequences.

(** The factories of the two callers are pure: [lambda : Pad_sample()]
    and [lambda : np.array([0] * self.num_of_classes())]. *)
Definition pure_factory {A : Type} (a : A) : unit -> A * unit :=
  fun st => (a, st).

(** ** The external collaborators, as far as the code calls them

    [numpy], [keras.utils.np_utils] and [sklearn.preprocessing.LabelEncoder]
    are libraries, not code of this repository. They are modelled by what
    the calls made in [model.py] return. Arrays are lists; the floats 0.0
    and 1.0 of a one-hot row are the integers 0 and 1. *)

Module np.

(** [np.unique] on an array of strings: the distinct values, sorted.
    Strings are ordered as byte strings, lexicographically. *)
Fixpoint insert_unique (x : string) (l : list string) : list string :=
  match l with
  | [] => [x]
  | y :: l' =>
      match String_as_OT.compare x y with
      | Lt => x :: l
      | Eq => l
      | Gt => y :: insert_unique x l'
      end
  end.

Definition unique (y : list string) : list string :=
  fold_right insert_unique [] y.

(** [np.searchsorted(a, v)] for one value [v]: the leftmost position at
    which [v] can be inserted into the sorted array [a]. *)
Fixpoint searchsorted (a : list string) (v : string) : Z :=
  match a with
  | [] => 0
  | x :: a' =>
      match String_as_OT.compare x v with
      | Lt => 1 + searchsorted a' v
      | _ => 0
      end
  end.

(** [np.array([0] * n)]. *)
Definition zeros (n : Z) : list Z := Py.replicate 0 n.

(** Row [k] of the identity matrix with [n] columns. *)
Definition one_hot (n k : Z) : list Z :=
  map (fun c => if c =? k then 1 else 0) (Py.range 0 n).

End np.

Module np_utils.

(** [to_categorical(y)] without [nb_classes]: the width is
    [np.max(y) + 1], which raises on an empty [y]; one row per entry. *)
Definition to_categorical (y : list Z) : result (list (list Z)) :=
  m <- Py.max y ;;
  let nb_classes := m + 1 in
  Return (map (np.one_hot nb_classes) y).

End np_utils.

Module LabelEncoder.

(** The attribute [classes_] exists only after [fit]. *)
Record t : Type := mk { classes_ : option (list string) }.

(** [LabelEncoder()]. *)
Definition new : t := mk None.

(** [fit(y)] replaces whatever was fitted before. *)
Definition fit (self : t) (y : list string) : t :=
  mk (Some (np.unique y)).

Definition known (cls : list string) (l : string) : bool :=
  existsb (String.eqb l) cls.

(** [transform(y)] raises when [y] holds a label that was not fitted. *)
Definition transform (self : t) (y : list string) : result (list Z) :=
  match classes_ self with
  | None => Raise NotFittedError
  | Some cls =>
      if forallb (known cls) y
      then Return (map (np.searchsorted cls) y)
      else Raise ValueError
  end.

(** [inverse_transform(y)] indexes [classes_] and raises on an index
    outside [arange(len(classes_))]. *)
Definition inverse_transform (self : t) (y : list Z)
  : result (list string) :=
  match classes_ self with
  | None => Raise NotFittedError
  | Some cls =>
      if forallb (fun i => (0 <=? i) && (i <? Py.len cls)) y
      then Return (map (fun i => nth (Z.to_nat i) cls EmptyString) y)
      else Raise ValueError
  end.

End LabelEncoder.

(** The embedding provider: [emb.get_word_index(w)]. *)
Record Glove : Type := mkGlove { get_word_index : string -> Z }.

(** ** The data frame

    [pandas.read_csv] is outside the model: a data frame is the list of
    its rows in file order, with the four columns the code reads. *)

Module DF.

Record row : Type :=
  mkRow { run_id : Z; word : string; pred : string; label : string }.

Definition t : Type := list row.

(** [df[df.run_id == i]] keeps the rows in order. *)
Definition where_run_id (df : t) (i : Z) : t :=
  filter (fun r => run_id r =? i) df.

End DF.

(** ** [RNN_model] (model.py, lines 24-203)

    Of the members set by [__init__] only those the data-shaping methods
    read are kept. *)

Record RNN_model : Type := mkRNN_model {
  sent_maxlen : Z;
  emb : Glove;
  encoder : LabelEncoder.t
}.

(** [encode_inputs] returns a dictionary with these two keys. *)
Record EncodedInput : Type := mkEncodedInput {
  word_inputs : list (list Z);
  predicate_inputs : list (list Z)
}.

Definition EncodedOutput : Type := list (list (list Z)).

(** Lines 143-147. *)
Definition get_sents_from_df (df : DF.t) : result (list DF.t) :=
  lo <- Py.min (map DF.run_id df) ;;
  hi <- Py.max (map DF.run_id df) ;;
  Return (map (DF.where_run_id df) (Py.range lo hi)).

(** Lines 199-203 and 77-81: [len(self.encoder.classes_)]. Before [fit]
    the attribute is missing and the access would raise; the methods below
    reach this call only after a successful [transform] (lemma
    [encode_outputs_unfitted]), so the model returns 0 there. *)
Definition num_of_classes (self : RNN_model) : Z :=
  match LabelEncoder.classes_ (encoder self) with
  | Some cls => Py.len cls
  | None => 0
  end.

(** Lines 149-174. *)
Definition encode_inputs (self : RNN_model) (sents : list DF.t)
  : result EncodedInput :=
  let encode_column (column : DF.row -> string) :=
    map (fun sent =>
           map (fun w => mkSample (get_word_index (emb self) w))
               (map column sent)) sents in
  let word_inputs := encode_column DF.word in
  let pred_inputs := encode_column DF.pred in
  let pad sequence :=
    samples <- fst (pad_sequences (pure_factory Pad_sample) sequence
                      (Some (sent_maxlen self)) tt) ;;
    Return (map (map encode) samples) in
  w <- pad word_inputs ;;
  p <- pad pred_inputs ;;
  Return (mkEncodedInput w p).

(** Lines 177-190. *)
Definition encode_outputs (self : RNN_model) (sents : list DF.t)
  : result EncodedOutput :=
  output_encodings <-
    for_each (fun sent =>
                y <- LabelEncoder.transform (encoder self)
                       (map DF.label sent) ;;
                np_utils.to_categorical y) sents ;;
  fst (pad_sequences (pure_factory (np.zeros (num_of_classes self)))
         output_encodings (Some (sent_maxlen self)) tt).

(** Lines 193-197. The argument is an index or an array of indices; a
    single index is the array of length one. *)
Definition decode_label (self : RNN_model) (encoded_label : list Z)
  : result (list string) :=
  LabelEncoder.inverse_transform (encoder self) encoded_label.

(** Lines 128-141, from the parsed data frame on. The encoder is fitted
    before anything can raise, so the new model state is returned in
    every case. *)
Definition load_dataset (self : RNN_model) (df : DF.t)
  : RNN_model * result (EncodedInput * EncodedOutput) :=
  let self' :=
    mkRNN_model (sent_maxlen self) (emb self)
      (LabelEncoder.fit (encoder self) (map DF.label df)) in
  (self',
   sents <- get_sents_from_df df ;;
   X <- encode_inputs self' sents ;;
   Y <- encode_outputs self' sents ;;
   Return (X, Y)).

(** ** Shapes *)

(** Every row of a two-dimensional array has [n] entries. *)
Definition rows_have_length {A : Type} (n : Z) (a : list (list A)) : Prop :=
  Forall (fun r => Py.len r = n) a.

(** A requested length is a length: [None], or an integer that is not
    negative ([sent_maxlen] is "the maximum length in words of each
    sentence"). *)
Definition is_length (maxlen : option Z) : Prop :=
  match maxlen with
  | None => True
  | Some L => 0 <= L
  end.

(** The [run_id] values that occur in a file are exactly [ids]. *)
Definition run_ids_exactly (df : DF.t) (ids : list Z) : Prop :=
  forall i, In i (map DF.run_id df) <-> In i ids.

(** The labels of a file, as a set. *)
Definition same_label_set (df1 df2 : DF.t) : Prop :=
  forall l, In l (map DF.label df1) <-> In l (map DF.label df2).

(** ** A small file, used for the worked examples *)

Definition toy_df : DF.t :=
  [ DF.mkRow 0 "dogs" "bark" "A0-B"; DF.mkRow 0 "bark" "bark" "P-B";
    DF.mkRow 1 "cats" "sat" "A0-B";  DF.mkRow 1 "sat" "sat" "P-B";
    DF.mkRow 1 "down" "sat" "O";
    DF.mkRow 2 "birds" "sing" "A0-B"; DF.mkRow 2 "sing" "sing" "P-B" ].

Definition toy_df2 : DF.t :=
  [ DF.mkRow 0 "it" "rains" "O"; DF.mkRow 0 "rains" "rains" "P-B";
    DF.mkRow 1 "snow" "falls" "A1-B"; DF.mkRow 1 "falls" "falls" "P-B" ].

Definition toy_emb : Glove := mkGlove (fun w => Z.of_nat (String.length w)).

Definition toy_model : RNN_model := mkRNN_model 20 toy_emb LabelEncoder.new.

(** ** Further built-ins: two-sided slices, [enumerate], [sorted] *)

Module PySeq.

(** A slice bound: a negative bound counts from the end, and every bound
    is clipped to the sequence. *)
Definition clamp (n i : Z) : Z :=
  if i <? 0 then Z.max 0 (n + i) else Z.min i n.

(** [l[start:stop]]. *)
Definition slice {A : Type} (l : list A) (start stop : Z) : list A :=
  let lo := clamp (Py.len l) start in
  let hi := clamp (Py.len l) stop in
  firstn (Z.to_nat (hi - lo)) (skipn (Z.to_nat lo) l).

(** [l[i]]: a negative index counts from the end; outside the sequence
    the access raises [IndexError], modelled by [None]. *)
Definition getitem {A : Type} (l : list A) (i : Z) : option A :=
  let j := if i <? 0 then Py.len l + i else i in
  if (0 <=? j) && (j <? Py.len l) then nth_error l (Z.to_nat j) else None.

(** [enumerate(l)], as the list of its pairs. *)
Definition enumerate {A : Type} (l : list A) : list (Z * A) :=
  combine (Py.range 0 (Py.len l)) l.

(** [sorted(l, key = key, reverse = True)]. Python's sort is stable, also
    with [reverse = True], and compares keys with [<] only; on keys that
    [<] orders there is one stable result, which insertion from the right
    builds: an element goes behind the elements whose key is greater and
    in front of the first one whose key is not. *)
Fixpoint insert_reverse {A B : Type} (key : A -> B) (ltb : B -> B -> bool)
  (x : A) (l : list A) : list A :=
  match l with
  | [] => [x]
  | y :: l' =>
      if ltb (key x) (key y) then y :: insert_reverse key ltb x l'
      else x :: l
  end.

Definition sorted_reverse {A B : Type} (key : A -> B)
  (ltb : B -> B -> bool) (l : list A) : list A :=
  fold_right (insert_reverse key ltb) [] l.

End PySeq.

(** ** [am] (model.py, line 359)

    The entries of [myList] are the floats of a probability vector; the
    model takes any type [P] with its comparison [ltb] (Python's [<]). *)

Definition am {P : Type} (ltb : P -> P -> bool) (myList : list P) : list Z :=
  map fst (PySeq.sorted_reverse snd ltb (PySeq.enumerate myList)).

(** ** [RNN_model.sample_labels] (model.py, lines 294-306)

    Two accesses can raise: [self.encoder.classes_] before [fit], and
    [classes[ind]] when a probability vector is wider than the fitted
    classes are many. *)

Inductive sample_error : Type :=
| AttributeError  (* the encoder has no [classes_] yet *)
| IndexError.     (* [classes[ind]] outside the array *)

Fixpoint traverse {E A B : Type} (f : A -> E + B) (l : list A)
  : E + list B :=
  match l with
  | [] => inr []
  | a :: l' =>
      match f a with
      | inl e => inl e
      | inr b =>
          match traverse f l' with
          | inl e => inl e
          | inr bs => inr (b :: bs)
          end
      end
  end.

(** Line 304: [(classes[ind], word[ind])]. *)
Definition labelled_prob {P : Type} (classes : list string) (word : list P)
  (ind : Z) : sample_error + string * P :=
  match PySeq.getitem classes ind, PySeq.getitem word ind with
  | Some c, Some p => inr (c, p)
  | _, _ => inl IndexError
  end.

Definition sample_labels {P : Type} (ltb : P -> P -> bool)
  (self : RNN_model) (y : list (list (list P)))
  (num_of_sents num_of_samples num_of_classes start_index : Z)
  : sample_error + list (list (list (string * P))) :=
  match LabelEncoder.classes_ (encoder self) with
  | None => inl AttributeError
  | Some classes =>
      traverse
        (fun sent =>
           traverse
             (fun word =>
                let sorted_prob := am ltb word in
                traverse (labelled_prob classes word)
                  (Py.slice_to sorted_prob num_of_classes))
             (PySeq.slice sent start_index (start_index + num_of_samples)))
        (Py.slice_to y num_of_sents)
  end.

(** The defaults of the signature. *)
Definition sample_labels_default {P : Type} (ltb : P -> P -> bool)
  (self : RNN_model) (y : list (list (list P)))
  : sample_error + list (list (list (string * P))) :=
  sample_labels ltb self y 5 10 3 5.

(** ** [RNN_model.stack] and its two callers (model.py, lines 216-242)

    A Keras layer is modelled by what calling it on a tensor returns, and
    a [lambda : Layer(...)] by a function on the state [S] of the
    framework, so that the order in which layers are made is part of the
    model. Python evaluates [layers[0]()] before the argument
    [self.stack(x, layers[1:])]. *)

Inductive activation : Type := softmax | relu.

Section Stack.

Variables (T S : Type).

Definition layer : Type := T -> T.

Definition layer_thunk : Type := S -> layer * S.

(** Lines 234-242. *)
Fixpoint stack (x : T) (layers : list layer_thunk) (st : S) : T * S :=
  match layers with
  | [] => (x, st)
  | first :: rest =>
      let (outer, st1) := first st in
      let (inner, st2) := stack x rest st1 in
      (outer inner, st2)
  end.

(** The layers a list of thunks makes when they are called in list order,
    and their composition, the head of the list outermost. *)
Fixpoint construct (layers : list layer_thunk) (st : S) : list layer * S :=
  match layers with
  | [] => ([], st)
  | first :: rest =>
      let (f, st1) := first st in
      let (fs, st2) := construct rest st1 in
      (f :: fs, st2)
  end.

Definition compose_layers (fs : list layer) (x : T) : T :=
  fold_right (fun f t => f t) x fs.

(** [Bidirectional(LSTM(hidden_units, return_sequences = True))] and
    [TimeDistributed(Dense(output_dim, activation))]. *)
Variable Bidirectional_LSTM : Z -> layer_thunk.
Variable TimeDistributed_Dense : Z -> activation -> layer_thunk.

(** Lines 227-232; [hidden_units] is the member [self.hidden_units]. *)
Definition stack_latent_layers (hidden_units : Z) (n : Z) (x : T) (st : S)
  : T * S :=
  stack x (Py.replicate (Bidirectional_LSTM hidden_units) n) st.

(** Lines 216-225. The first thunk reads [self.num_of_classes()] when it
    is called, which is before any layer is made; on an encoder that was
    never fitted that call raises. *)
Definition predict_classes (self : RNN_model) (x : T) (st : S)
  : (sample_error + T) * S :=
  match LabelEncoder.classes_ (encoder self) with
  | None => (inl AttributeError, st)
  | Some _ =>
      let (t, st') :=
        stack x
          ([TimeDistributed_Dense (num_of_classes self) softmax]
             ++ Py.replicate (TimeDistributed_Dense 1028 relu) 3) st in
      (inr t, st')
  end.

End Stack.

(** ** Files that load

    A file spans two sentence ids or more, and every id between two ids of
    the file is an id of the file. *)
Definition loadable (df : DF.t) : Prop :=
  (exists r1 r2, In r1 df /\ In r2 df /\ DF.run_id r1 < DF.run_id r2)
  /\ (forall i r1 r2, In r1 df -> In r2 df ->
        DF.run_id r1 <= i <= DF.run_id r2 ->
        exists r, In r df /\ DF.run_id r = i).

(** The order [sorted(..., reverse = True)] establishes between an earlier
    and a later pair of [enumerate]: the later value is not greater, and
    of two values of which neither is less the one with the smaller index
    is the earlier. *)
Definition before {P : Type} (ltb : P -> P -> bool) (p q : Z * P) : Prop :=
  ltb (snd p) (snd q) = false
  /\ (ltb (snd q) (snd p) = false -> fst p < fst q).


(** A prediction for one sentence of two words over three classes, with
    integers in place of the probabilities. *)
Definition toy_prediction : list (list (list Z)) :=
  [ [ [10; 70; 20]; [50; 30; 50] ] ].

(** * Properties *)

Unset Implicit Arguments.

(** ** Worked examples *)

Example pad_sequences_requested_4 :
  pad_sequences (pure_factory 0) [[1; 2; 3]; [4; 5]] (Some 4) tt
  = (Return [[1; 2; 3]; [4; 5; 0]], tt).
Proof. reflexivity. Qed.

Example pad_sequences_requested_2 :
  pad_sequences (pure_factory 0) [[1; 2; 3]; [4; 5]] (Some 2) tt
  = (Return [[1; 2]; [4; 5]], tt).
Proof. reflexivity. Qed.

Example pad_sequences_unrequested :
  pad_sequences (pure_factory 0) [[1; 2; 3]; [4; 5]] None tt
  = (Return [[1; 2; 3]; [4; 5; 0]], tt).
Proof. reflexivity. Qed.

(** A counting factory shows one call per sequence. *)
Example pad_sequences_counting :
  pad_sequences (fun n : Z => (n, n + 1)) [[7; 7; 7]; [7]; []] None 10
  = (Return [[7; 7; 7]; [7; 11; 11]; [12; 12; 12]], 13).
Proof. reflexivity. Qed.

(** A negative [maxlen] is passed on to the slice, which then drops from
    the end of every sequence. *)
Example pad_sequences_negative :
  pad_sequences (pure_factory 0) [[1; 2; 3]; [4; 5]] (Some (-1)) tt
  = (Return [[1; 2]; [4]], tt).
Proof. reflexivity. Qed.

Example load_dataset_toy :
  load_dataset toy_model toy_df
  = (mkRNN_model 20 toy_emb (LabelEncoder.mk (Some ["A0-B"; "O"; "P-B"])),
     Return (mkEncodedInput [[4; 4; 0]; [4; 3; 4]] [[4; 4; 0]; [3; 3; 3]],
             [ [[1; 0; 0]; [0; 0; 1]; [0; 0; 0]];
               [[1; 0; 0]; [0; 0; 1]; [0; 1; 0]] ])).
Proof. reflexivity. Qed.

(** ** Built-ins *)

Lemma len_nonneg {A : Type} (l : list A) : 0 <= Py.len l.
Proof. unfold Py.len. lia. Qed.

Lemma len_app {A : Type} (l1 l2 : list A) :
  Py.len (l1 ++ l2) = Py.len l1 + Py.len l2.
Proof. unfold Py.len. rewrite length_app. lia. Qed.

Lemma len_replicate {A : Type} (x : A) (n : Z) :
  Py.len (Py.replicate x n) = Z.max 0 n.
Proof. unfold Py.len, Py.replicate. rewrite repeat_length. lia. Qed.

Lemma len_slice_to {A : Type} (l : list A) (k : Z) :
  0 <= k -> Py.len (Py.slice_to l k) = Z.min k (Py.len l).
Proof.
  intros Hk. unfold Py.slice_to.
  destruct (Z.leb_spec 0 k) as [_ | Hneg]; [| lia].
  unfold Py.len. rewrite length_firstn. lia.
Qed.

Lemma slice_to_all {A : Type} (l : list A) (k : Z) :
  Py.len l <= k -> Py.slice_to l k = l.
Proof.
  intros Hk. pose proof (len_nonneg l) as Hl. unfold Py.slice_to.
  destruct (Z.leb_spec 0 k) as [_ | Hneg]; [| lia].
  apply firstn_all2. unfold Py.len in Hk. lia.
Qed.

Lemma fold_right_max_mono (xs : list Z) (b c : Z) :
  b <= c -> fold_right Z.max b xs <= fold_right Z.max c xs.
Proof. intros Hbc. induction xs as [| y ys IHy]; simpl; lia. Qed.

Lemma fold_right_max_low (xs : list Z) (b : Z) :
  b <= fold_right Z.max b xs.
Proof. induction xs as [| y ys IHy]; simpl; lia. Qed.

Lemma fold_right_max_up (xs : list Z) (a x : Z) :
  fold_right Z.max (Z.max a x) xs <= Z.max x (fold_right Z.max a xs).
Proof. induction xs as [| y ys IHy]; simpl; lia. Qed.

Lemma fold_left_max_ge (xs : list Z) (a : Z) :
  fold_left Z.max xs a = Z.max a (fold_right Z.max a xs).
Proof.
  revert a. induction xs as [| x xs IH]; intros a; simpl.
  - lia.
  - rewrite IH.
    pose proof (fold_right_max_mono xs a (Z.max a x) ltac:(lia)).
    pose proof (fold_right_max_low xs (Z.max a x)).
    pose proof (fold_right_max_up xs a x).
    lia.
Qed.

Lemma fold_right_max_base (xs : list Z) (a : Z) :
  0 <= a -> fold_right Z.max a xs = Z.max a (fold_right Z.max 0 xs).
Proof. intros Ha. induction xs as [| x xs IH]; simpl; lia. Qed.

Lemma range_length (lo hi : Z) :
  length (Py.range lo hi) = Z.to_nat (hi - lo).
Proof. unfold Py.range. now rewrite length_map, length_seq. Qed.

Lemma range_nth (lo hi : Z) (k : nat) :
  (k < Z.to_nat (hi - lo))%nat ->
  nth_error (Py.range lo hi) k = Some (lo + Z.of_nat k).
Proof.
  intros Hk. unfold Py.range.
  rewrite nth_error_map, nth_error_seq.
  destruct (Nat.ltb_spec k (Z.to_nat (hi - lo))); [reflexivity | lia].
Qed.

Lemma range_In (lo hi i : Z) : In i (Py.range lo hi) <-> lo <= i < hi.
Proof.
  unfold Py.range. rewrite in_map_iff. split.
  - intros (k & <- & Hk). apply in_seq in Hk. lia.
  - intros Hi. exists (Z.to_nat (i - lo)). split; [lia |].
    apply in_seq. lia.
Qed.

(** ** [pad_sequences] *)

Section PadSequencesFacts.

Context {A S : Type}.
Variable pad_func : S -> A * S.

Lemma max_observed_nonneg (sequences : list (list A)) :
  0 <= max_observed sequences.
Proof.
  unfold max_observed.
  induction sequences as [| s rest IH]; simpl; [lia |].
  pose proof (len_nonneg s). lia.
Qed.

(** [max_observed] bounds every length and, on a non-empty collection,
    is the length of one of the sequences. *)
Lemma max_observed_upper (sequences : list (list A)) (s : list A) :
  In s sequences -> Py.len s <= max_observed sequences.
Proof.
  unfold max_observed.
  induction sequences as [| s0 rest IH]; simpl; [tauto |].
  intros [-> | Hin]; [lia | specialize (IH Hin); lia].
Qed.

Lemma max_observed_attained (sequences : list (list A)) :
  sequences <> [] ->
  exists s, In s sequences /\ Py.len s = max_observed sequences.
Proof.
  induction sequences as [| s0 rest IH]; [congruence |]. intros _.
  destruct rest as [| s1 rest'].
  - exists s0. split; [now left |].
    unfold max_observed. simpl. pose proof (len_nonneg s0). lia.
  - destruct (IH ltac:(discriminate)) as (s & Hin & Hlen).
    destruct (Z_le_gt_dec (max_observed (s1 :: rest')) (Py.len s0)) as [Hle | Hgt].
    + exists s0. split; [now left |].
      change (max_observed (s0 :: s1 :: rest'))
        with (Z.max (Py.len s0) (max_observed (s1 :: rest'))). lia.
    + exists s. split; [now right |].
      change (max_observed (s0 :: s1 :: rest'))
        with (Z.max (Py.len s0) (max_observed (s1 :: rest'))). lia.
Qed.

Lemma max_map_len (sequences : list (list A)) :
  sequences <> [] ->
  Py.max (map Py.len sequences) = Return (max_observed sequences).
Proof.
  destruct sequences as [| s rest]; [congruence |]. intros _.
  unfold Py.max, max_observed. simpl. f_equal.
  rewrite fold_left_max_ge.
  rewrite (fold_right_max_base _ (Py.len s) (len_nonneg s)).
  lia.
Qed.

Lemma pad_one_length (maxlen : Z) (s : list A) (pad : A) :
  0 <= maxlen -> Py.len (pad_one maxlen s pad) = maxlen.
Proof.
  intros Hm. unfold pad_one.
  rewrite len_app, len_replicate, len_slice_to by assumption. lia.
Qed.

Lemma pad_one_truncates (maxlen : Z) (s : list A) (pad : A) :
  0 <= maxlen -> maxlen <= Py.len s ->
  pad_one maxlen s pad = firstn (Z.to_nat maxlen) s.
Proof.
  intros Hm Hlen. unfold pad_one, Py.slice_to, Py.replicate.
  destruct (Z.leb_spec 0 maxlen) as [_ | Hneg]; [| lia].
  replace (Z.to_nat (maxlen - Py.len s)) with 0%nat by lia.
  simpl. apply app_nil_r.
Qed.

Lemma pad_one_pads (maxlen : Z) (s : list A) (pad : A) :
  Py.len s <= maxlen ->
  pad_one maxlen s pad = s ++ repeat pad (Z.to_nat (maxlen - Py.len s)).
Proof.
  intros Hlen. unfold pad_one. now rewrite slice_to_all by assumption.
Qed.

Lemma state_at_succ (i : nat) (st : S) :
  state_at pad_func (Datatypes.S i) st
  = state_at pad_func i (snd (pad_func st)).
Proof. unfold state_at. apply Nat.iter_succ_r. Qed.

Lemma pad_loop_cons (maxlen : Z) (s : list A) (rest : list (list A))
  (st : S) :
  pad_loop pad_func maxlen (s :: rest) st
  = (pad_one maxlen s (fst (pad_func st))
       :: fst (pad_loop pad_func maxlen rest (snd (pad_func st))),
     snd (pad_loop pad_func maxlen rest (snd (pad_func st)))).
Proof.
  cbn [pad_loop]. destruct (pad_func st) as [pad st1]. cbn [fst snd].
  now destruct (pad_loop pad_func maxlen rest st1).
Qed.

Lemma pad_loop_length (maxlen : Z) (sequences : list (list A)) (st : S) :
  length (fst (pad_loop pad_func maxlen sequences st)) = length sequences.
Proof.
  revert st. induction sequences as [| s rest IH]; intros st.
  - reflexivity.
  - rewrite pad_loop_cons. cbn [fst length]. now rewrite IH.
Qed.

(** The loop keeps positions: entry [i] of the result is built from entry
    [i] of the input and from the factory's call number [i]. *)
Lemma pad_loop_nth (maxlen : Z) (sequences : list (list A)) (st : S)
  (i : nat) (s : list A) :
  nth_error sequences i = Some s ->
  nth_error (fst (pad_loop pad_func maxlen sequences st)) i
  = Some (pad_one maxlen s (pad_at pad_func i st)).
Proof.
  revert st i. induction sequences as [| s0 rest IH]; intros st i Hnth.
  - destruct i; discriminate.
  - rewrite pad_loop_cons. cbn [fst]. destruct i as [| i].
    + injection Hnth as ->. reflexivity.
    + cbn [nth_error] in *. unfold pad_at. rewrite state_at_succ.
      now apply IH.
Qed.

Lemma pad_loop_state (maxlen : Z) (sequences : list (list A)) (st : S) :
  snd (pad_loop pad_func maxlen sequences st)
  = state_at pad_func (length sequences) st.
Proof.
  revert st. induction sequences as [| s rest IH]; intros st.
  - reflexivity.
  - rewrite pad_loop_cons. cbn [snd length].
    rewrite state_at_succ. apply IH.
Qed.

(** On a non-empty collection the call returns what the loop built. *)
Lemma pad_sequences_returns (sequences : list (list A))
  (maxlen : option Z) (st : S) :
  sequences <> [] ->
  pad_sequences pad_func sequences maxlen st
  = (Return (fst (pad_loop pad_func
                    (effective_maxlen (max_observed sequences) maxlen)
                    sequences st)),
     state_at pad_func (length sequences) st).
Proof.
  intros Hne. unfold pad_sequences. rewrite (max_map_len _ Hne).
  rewrite <- pad_loop_state
    with (maxlen := effective_maxlen (max_observed sequences) maxlen).
  now destruct (pad_loop pad_func _ sequences st).
Qed.

Lemma pad_sequences_empty (maxlen : option Z) (st : S) :
  pad_sequences pad_func [] maxlen st = (Raise ValueError, st).
Proof. reflexivity. Qed.

Lemma nth_error_nonempty {B : Type} (l : list B) (i : nat) (b : B) :
  nth_error l i = Some b -> l <> [].
Proof. intros H ->. destruct i; discriminate. Qed.

End PadSequencesFacts.

Section PadSequencesClaims.

Context {A S : Type}.
Variable pad_func : S -> A * S.

Lemma effective_maxlen_nonneg (sequences : list (list A))
  (maxlen : option Z) :
  is_length maxlen ->
  0 <= effective_maxlen (max_observed sequences) maxlen.
Proof.
  pose proof (max_observed_nonneg sequences).
  destruct maxlen as [L |]; simpl; lia.
Qed.

Lemma pad_loop_rows (maxlen : Z) (sequences : list (list A)) (st : S) :
  0 <= maxlen ->
  rows_have_length maxlen (fst (pad_loop pad_func maxlen sequences st)).
Proof.
  intros Hm. revert st.
  induction sequences as [| s rest IH]; intros st.
  - constructor.
  - rewrite pad_loop_cons. cbn [fst]. constructor; [| apply IH].
    now apply pad_one_length.
Qed.

(** C1. For a non-empty collection, every sequence [pad_sequences]
    returns has length min(L, maximum observed length) when a length L
    is requested, and the maximum observed length when none is. *)
Theorem pad_sequences_output_length (sequences : list (list A))
  (maxlen : option Z) (st : S) :
  sequences <> [] ->
  is_length maxlen ->
  exists ret st',
    pad_sequences pad_func sequences maxlen st = (Return ret, st')
    /\ rows_have_length
         (match maxlen with
          | Some L => Z.min L (max_observed sequences)
          | None => max_observed sequences
          end) ret.
Proof.
  intros Hne Hlen. eexists. eexists.
  split; [apply pad_sequences_returns; assumption |].
  replace (match maxlen with
           | Some L => Z.min L (max_observed sequences)
           | None => max_observed sequences
           end)
    with (effective_maxlen (max_observed sequences) maxlen)
    by (destruct maxlen; simpl; lia).
  apply pad_loop_rows. now apply effective_maxlen_nonneg.
Qed.

(** C4. A sequence longer than the effective length comes back as its
    first effective-length elements. *)
Theorem pad_sequences_truncates (sequences : list (list A))
  (maxlen : option Z) (st : S) (i : nat) (s : list A) :
  nth_error sequences i = Some s ->
  is_length maxlen ->
  effective_maxlen (max_observed sequences) maxlen < Py.len s ->
  exists ret st',
    pad_sequences pad_func sequences maxlen st = (Return ret, st')
    /\ nth_error ret i
       = Some (firstn
                 (Z.to_nat (effective_maxlen (max_observed sequences)
                              maxlen)) s).
Proof.
  intros Hnth Hlen Hlong. eexists. eexists.
  split; [apply pad_sequences_returns; eapply nth_error_nonempty; eassumption |].
  rewrite (pad_loop_nth pad_func _ _ _ _ _ Hnth). f_equal.
  apply pad_one_truncates; [now apply effective_maxlen_nonneg | lia].
Qed.

(** C5. A sequence shorter than the effective length comes back followed
    by copies of the value the pad factory returned for it, up to the
    effective length. *)
Theorem pad_sequences_pads (sequences : list (list A))
  (maxlen : option Z) (st : S) (i : nat) (s : list A) :
  nth_error sequences i = Some s ->
  Py.len s < effective_maxlen (max_observed sequences) maxlen ->
  exists ret st',
    pad_sequences pad_func sequences maxlen st = (Return ret, st')
    /\ nth_error ret i
       = Some (s ++ repeat (pad_at pad_func i st)
                      (Z.to_nat (effective_maxlen (max_observed sequences)
                                   maxlen - Py.len s)))
    /\ Py.len (s ++ repeat (pad_at pad_func i st)
                      (Z.to_nat (effective_maxlen (max_observed sequences)
                                   maxlen - Py.len s)))
       = effective_maxlen (max_observed sequences) maxlen.
Proof.
  intros Hnth Hshort. eexists. eexists.
  split; [apply pad_sequences_returns; eapply nth_error_nonempty; eassumption |].
  split.
  - rewrite (pad_loop_nth pad_func _ _ _ _ _ Hnth). f_equal.
    apply pad_one_pads. lia.
  - rewrite len_app. unfold Py.len at 2. rewrite repeat_length. lia.
Qed.

(** C7. On an empty collection [pad_sequences] raises the [ValueError]
    of a maximum over nothing, before the factory is called; on every
    non-empty collection it returns. *)
Theorem pad_sequences_fails_iff_empty (sequences : list (list A))
  (maxlen : option Z) (st : S) :
  match sequences with
  | [] => pad_sequences pad_func sequences maxlen st
          = (Raise ValueError, st)
  | _ :: _ => exists ret st',
      pad_sequences pad_func sequences maxlen st = (Return ret, st')
  end.
Proof.
  destruct sequences as [| s rest].
  - reflexivity.
  - eexists. eexists. apply pad_sequences_returns. discriminate.
Qed.

(** C10. On a non-empty collection [pad_sequences] returns as many
    sequences as it was given, in the same order: the one at position
    [i] is the slice [s[:maxlen]] of the input at position [i] followed
    by [maxlen - len(s)] copies of the pad value made for it. *)
Theorem pad_sequences_keeps_positions (sequences : list (list A))
  (maxlen : option Z) (st : S) :
  sequences <> [] ->
  exists ret st',
    pad_sequences pad_func sequences maxlen st = (Return ret, st')
    /\ length ret = length sequences
    /\ forall (i : nat) (s : list A),
         nth_error sequences i = Some s ->
         let eff := effective_maxlen (max_observed sequences) maxlen in
         nth_error ret i
         = Some (Py.slice_to s eff
                   ++ Py.replicate (pad_at pad_func i st)
                        (eff - Py.len s)).
Proof.
  intros Hne. eexists. eexists.
  split; [apply pad_sequences_returns; assumption |].
  split; [apply pad_loop_length |].
  intros i s Hnth eff. apply (pad_loop_nth pad_func _ _ _ _ _ Hnth).
Qed.

End PadSequencesClaims.

Lemma pad_sequences_output_length_witness :
  (exists ret st',
     pad_sequences (pure_factory 0) [[1; 2; 3]; [4; 5]] (Some 2) tt
     = (Return ret, st')
     /\ rows_have_length 2 ret)
  /\ (exists ret st',
        pad_sequences (pure_factory 0) [[1; 2; 3]; [4; 5]] None tt
        = (Return ret, st')
        /\ rows_have_length 3 ret).
Proof.
  split.
  - apply (pad_sequences_output_length (pure_factory 0)
             [[1; 2; 3]; [4; 5]] (Some 2) tt); [discriminate | simpl; lia].
  - apply (pad_sequences_output_length (pure_factory 0)
             [[1; 2; 3]; [4; 5]] None tt); [discriminate | exact I].
Defined.

Lemma pad_sequences_truncates_witness :
  exists ret st',
    pad_sequences (pure_factory 0) [[1; 2; 3]; [4; 5]] (Some 2) tt
    = (Return ret, st')
    /\ nth_error ret 0 = Some [1; 2].
Proof.
  apply (pad_sequences_truncates (pure_factory 0)
           [[1; 2; 3]; [4; 5]] (Some 2) tt 0 [1; 2; 3]);
    [reflexivity | simpl; lia | vm_compute; reflexivity].
Defined.

Lemma pad_sequences_pads_witness :
  exists ret st',
    pad_sequences (fun n : Z => (n, n + 1)) [[7; 7; 7]; [7]] None 10
    = (Return ret, st')
    /\ nth_error ret 1 = Some [7; 11; 11]
    /\ Py.len [7; 11; 11] = 3.
Proof.
  apply (pad_sequences_pads (fun n : Z => (n, n + 1))
           [[7; 7; 7]; [7]] None 10 1 [7]);
    [reflexivity | vm_compute; reflexivity].
Defined.

Lemma pad_sequences_keeps_positions_witness :
  exists ret st',
    pad_sequences (pure_factory 0) [[1; 2; 3]; [4; 5]] (Some 4) tt
    = (Return ret, st')
    /\ length ret = 2%nat
    /\ forall (i : nat) (s : list Z),
         nth_error [[1; 2; 3]; [4; 5]] i = Some s ->
         nth_error ret i
         = Some (Py.slice_to s 3 ++ Py.replicate 0 (3 - Py.len s)).
Proof.
  apply (pad_sequences_keeps_positions (pure_factory 0)
           [[1; 2; 3]; [4; 5]] (Some 4) tt). discriminate.
Defined.

(** ** [Sample] *)

(** C9. A [Pad_sample] encodes to the index 0, and [Sample(w).encode()]
    is [w] for every integer [w]. *)
Theorem sample_encode :
  encode Pad_sample = 0 /\ forall w : Z, encode (mkSample w) = w.
Proof. split; [reflexivity | intros w; reflexivity]. Qed.

(** ** [get_sents_from_df] *)

Lemma fold_left_max_spec (xs : list Z) (a : Z) :
  In (fold_left Z.max xs a) (a :: xs)
  /\ forall x, In x (a :: xs) -> x <= fold_left Z.max xs a.
Proof.
  revert a. induction xs as [| y ys IH]; intros a.
  - simpl. split; [now left | intros x [-> | []]; lia].
  - cbn [fold_left]. destruct (IH (Z.max a y)) as [Hin Hub]. split.
    + destruct Hin as [Heq | Hin]; [| now right; right].
      rewrite <- Heq. destruct (Z.max_spec a y) as [[_ ->] | [_ ->]];
        [right; now left | now left].
    + intros x [-> | [-> | Hx]].
      * specialize (Hub (Z.max x y) (or_introl eq_refl)). lia.
      * specialize (Hub (Z.max a x) (or_introl eq_refl)). lia.
      * apply Hub. now right.
Qed.

Lemma fold_left_min_spec (xs : list Z) (a : Z) :
  In (fold_left Z.min xs a) (a :: xs)
  /\ forall x, In x (a :: xs) -> fold_left Z.min xs a <= x.
Proof.
  revert a. induction xs as [| y ys IH]; intros a.
  - simpl. split; [now left | intros x [-> | []]; lia].
  - cbn [fold_left]. destruct (IH (Z.min a y)) as [Hin Hlb]. split.
    + destruct Hin as [Heq | Hin]; [| now right; right].
      rewrite <- Heq. destruct (Z.min_spec a y) as [[_ ->] | [_ ->]];
        [now left | right; now left].
    + intros x [-> | [-> | Hx]].
      * specialize (Hlb (Z.min x y) (or_introl eq_refl)). lia.
      * specialize (Hlb (Z.min a x) (or_introl eq_refl)). lia.
      * apply Hlb. now right.
Qed.

(** Python's [max] and [min] return the greatest and the least element. *)
Lemma Py_max_spec (l : list Z) :
  l <> [] ->
  exists m, Py.max l = Return m /\ In m l /\ forall x, In x l -> x <= m.
Proof.
  destruct l as [| a xs]; [congruence |]. intros _.
  exists (fold_left Z.max xs a). split; [reflexivity |].
  apply fold_left_max_spec.
Qed.

Lemma Py_min_spec (l : list Z) :
  l <> [] ->
  exists m, Py.min l = Return m /\ In m l /\ forall x, In x l -> m <= x.
Proof.
  destruct l as [| a xs]; [congruence |]. intros _.
  exists (fold_left Z.min xs a). split; [reflexivity |].
  apply fold_left_min_spec.
Qed.

Lemma where_run_id_In (df : DF.t) (i : Z) (r : DF.row) :
  In r (DF.where_run_id df i) <-> In r df /\ DF.run_id r = i.
Proof.
  unfold DF.where_run_id. rewrite filter_In. now rewrite Z.eqb_eq.
Qed.

Lemma get_sents_from_df_empty : get_sents_from_df [] = Raise ValueError.
Proof. reflexivity. Qed.

(** On a file with at least one row the call returns the groups of the
    ids in [range(lo, hi)], [lo] the least and [hi] the greatest id. *)
Lemma get_sents_from_df_groups (df : DF.t) :
  df <> [] ->
  exists lo hi,
    get_sents_from_df df
    = Return (map (DF.where_run_id df) (Py.range lo hi))
    /\ (In lo (map DF.run_id df) /\ forall r, In r df -> lo <= DF.run_id r)
    /\ (In hi (map DF.run_id df) /\ forall r, In r df -> DF.run_id r <= hi).
Proof.
  intros Hne.
  assert (Hids : map DF.run_id df <> [])
    by (destruct df; [congruence | discriminate]).
  destruct (Py_min_spec _ Hids) as (lo & Hmin & Hlo_in & Hlo).
  destruct (Py_max_spec _ Hids) as (hi & Hmax & Hhi_in & Hhi).
  exists lo, hi.
  split; [unfold get_sents_from_df; rewrite Hmin, Hmax; reflexivity |].
  split; (split; [assumption | intros r Hr]).
  - apply Hlo. now apply in_map.
  - apply Hhi. now apply in_map.
Qed.

(** C2. On a file with at least one row, [get_sents_from_df] returns one
    group per id from the least observed [run_id] up to the greatest one
    less one, each holding the rows with that id; no row with the greatest
    id is in any group, and a file whose ids are exactly 0, 1 and 2 gives
    the two groups of the ids 0 and 1. *)
Theorem get_sents_from_df_excludes_max (df : DF.t) :
  df <> [] ->
  exists lo hi sents,
    get_sents_from_df df = Return sents
    /\ (In lo (map DF.run_id df) /\ forall r, In r df -> lo <= DF.run_id r)
    /\ (In hi (map DF.run_id df) /\ forall r, In r df -> DF.run_id r <= hi)
    /\ length sents = Z.to_nat (hi - lo)
    /\ (forall k, (k < length sents)%nat ->
          nth_error sents k = Some (DF.where_run_id df (lo + Z.of_nat k)))
    /\ (forall s r, In s sents -> In r s -> DF.run_id r < hi)
    /\ (run_ids_exactly df [0; 1; 2] ->
        sents = [DF.where_run_id df 0; DF.where_run_id df 1]).
Proof.
  intros Hne.
  destruct (get_sents_from_df_groups df Hne)
    as (lo & hi & Hrun & [Hlo_in Hlo_le] & [Hhi_in Hhi_le]).
  assert (Hlo : forall x, In x (map DF.run_id df) -> lo <= x).
  { intros x Hx. apply in_map_iff in Hx as (r & <- & Hr). now apply Hlo_le. }
  assert (Hhi : forall x, In x (map DF.run_id df) -> x <= hi).
  { intros x Hx. apply in_map_iff in Hx as (r & <- & Hr). now apply Hhi_le. }
  exists lo, hi, (map (DF.where_run_id df) (Py.range lo hi)).
  split; [assumption |].
  split; [now split |].
  split; [now split |].
  rewrite length_map, range_length.
  split; [reflexivity |].
  split.
  { intros k Hk. rewrite nth_error_map, range_nth by assumption.
    reflexivity. }
  split.
  { intros s r Hs Hr. apply in_map_iff in Hs as (i & <- & Hi).
    apply range_In in Hi. apply where_run_id_In in Hr as [_ ->]. lia. }
  intros Hexact.
  assert (lo = 0).
  { apply Hexact in Hlo_in.
    assert (H0 : In 0 (map DF.run_id df)) by (apply Hexact; simpl; tauto).
    apply Hlo in H0. simpl in Hlo_in. lia. }
  assert (hi = 2).
  { apply Hexact in Hhi_in.
    assert (H2 : In 2 (map DF.run_id df)) by (apply Hexact; simpl; tauto).
    apply Hhi in H2. simpl in Hhi_in. lia. }
  subst. reflexivity.
Qed.

Lemma get_sents_from_df_excludes_max_witness :
  exists lo hi sents,
    get_sents_from_df toy_df = Return sents
    /\ (In lo (map DF.run_id toy_df)
        /\ forall r, In r toy_df -> lo <= DF.run_id r)
    /\ (In hi (map DF.run_id toy_df)
        /\ forall r, In r toy_df -> DF.run_id r <= hi)
    /\ length sents = Z.to_nat (hi - lo)
    /\ (forall k, (k < length sents)%nat ->
          nth_error sents k
          = Some (DF.where_run_id toy_df (lo + Z.of_nat k)))
    /\ (forall s r, In s sents -> In r s -> DF.run_id r < hi)
    /\ (run_ids_exactly toy_df [0; 1; 2] ->
        sents = [DF.where_run_id toy_df 0; DF.where_run_id toy_df 1]).
Proof. apply (get_sents_from_df_excludes_max toy_df). discriminate. Defined.

Example toy_sents :
  get_sents_from_df toy_df
  = Return [ [ DF.mkRow 0 "dogs" "bark" "A0-B"; DF.mkRow 0 "bark" "bark" "P-B" ];
             [ DF.mkRow 1 "cats" "sat" "A0-B"; DF.mkRow 1 "sat" "sat" "P-B";
               DF.mkRow 1 "down" "sat" "O" ] ].
Proof. reflexivity. Qed.

(** ** The label encoder *)

Module LabelEncoderFacts.

Lemma compare_refl (x : string) : String_as_OT.compare x x = Eq.
Proof.
  destruct (String_as_OT.compare_spec x x) as [_ | H | H];
    [reflexivity | |]; exfalso; revert H; apply irreflexivity.
Qed.

Lemma compare_Lt (x y : string) : String_as_OT.lt x y -> String_as_OT.compare x y = Lt.
Proof. intros H. exact H. Qed.

Lemma compare_Gt (x y : string) : String_as_OT.compare x y = Gt -> String_as_OT.lt y x.
Proof.
  intros Hc. destruct (String_as_OT.compare_spec x y) as [_ | _ | H];
    try discriminate. exact H.
Qed.

Lemma compare_Eq (x y : string) : String_as_OT.compare x y = Eq -> x = y.
Proof.
  intros Hc. destruct (String_as_OT.compare_spec x y) as [H | _ | _];
    try discriminate. exact H.
Qed.

(** [np.unique] keeps exactly the values of its argument ... *)
Lemma insert_unique_In (x z : string) (l : list string) :
  In z (np.insert_unique x l) <-> z = x \/ In z l.
Proof.
  induction l as [| y l' IH]; simpl.
  - intuition congruence.
  - destruct (String_as_OT.compare x y) eqn:Hc; simpl.
    + apply compare_Eq in Hc. subst. intuition.
    + intuition congruence.
    + rewrite IH. intuition.
Qed.

Lemma unique_In (z : string) (y : list string) :
  In z (np.unique y) <-> In z y.
Proof.
  unfold np.unique. induction y as [| x y' IH]; simpl.
  - tauto.
  - rewrite insert_unique_In, IH. intuition congruence.
Qed.

(** ... in strictly increasing order. *)
Lemma insert_unique_sorted (x : string) (l : list string) :
  StronglySorted String_as_OT.lt l -> StronglySorted String_as_OT.lt (np.insert_unique x l).
Proof.
  induction 1 as [| y l' Hsorted IH Hall]; simpl.
  - repeat constructor.
  - destruct (String_as_OT.compare x y) eqn:Hc.
    + now constructor.
    + constructor; [now constructor |].
      constructor; [exact Hc |].
      eapply Forall_impl; [| exact Hall].
      intros z Hz. now transitivity y.
    + constructor; [exact IH |].
      apply Forall_forall. intros z Hz.
      apply insert_unique_In in Hz as [-> | Hz].
      * now apply compare_Gt.
      * rewrite Forall_forall in Hall. now apply Hall.
Qed.

Lemma unique_sorted (y : list string) : StronglySorted String_as_OT.lt (np.unique y).
Proof.
  unfold np.unique. induction y as [| x y' IH]; simpl.
  - constructor.
  - now apply insert_unique_sorted.
Qed.

(** In a sorted array without repetition, [searchsorted] finds the
    position of every value that occurs. *)
Lemma searchsorted_finds (cls : list string) (l : string) :
  StronglySorted String_as_OT.lt cls -> In l cls ->
  0 <= np.searchsorted cls l < Py.len cls
  /\ nth_error cls (Z.to_nat (np.searchsorted cls l)) = Some l.
Proof.
  induction 1 as [| y cls' Hsorted IH Hall]; intros Hin.
  - destruct Hin.
  - cbn [np.searchsorted]. unfold Py.len in *. cbn [length].
    destruct Hin as [-> | Hin].
    + rewrite compare_refl. simpl. split; [lia | reflexivity].
    + rewrite Forall_forall in Hall. rewrite (compare_Lt _ _ (Hall _ Hin)).
      destruct (IH Hin) as [Hrange Hnth]. split; [lia |].
      replace (Z.to_nat (1 + np.searchsorted cls' l))
        with (Datatypes.S (Z.to_nat (np.searchsorted cls' l))) by lia.
      exact Hnth.
Qed.

Lemma known_In (cls : list string) (l : string) :
  LabelEncoder.known cls l = true <-> In l cls.
Proof.
  unfold LabelEncoder.known. rewrite existsb_exists. split.
  - intros (x & Hx & Heq). apply String.eqb_eq in Heq. now subst.
  - intros Hin. exists l. split; [assumption | apply String.eqb_refl].
Qed.

Lemma known_not_In (cls : list string) (l : string) :
  ~ In l cls -> LabelEncoder.known cls l = false.
Proof.
  intros Hnot. destruct (LabelEncoder.known cls l) eqn:Hk; [| reflexivity].
  apply known_In in Hk. contradiction.
Qed.

(** [transform] returns exactly when every label was fitted. *)
Lemma transform_known (cls : list string) (y : list string) :
  (forall l, In l y -> In l cls) ->
  LabelEncoder.transform (LabelEncoder.mk (Some cls)) y
  = Return (map (np.searchsorted cls) y).
Proof.
  intros Hall. unfold LabelEncoder.transform. cbn [LabelEncoder.classes_].
  replace (forallb (LabelEncoder.known cls) y) with true; [reflexivity |].
  symmetry. apply forallb_forall. intros l Hl.
  apply known_In. now apply Hall.
Qed.

Lemma transform_unknown (cls : list string) (y : list string) (l : string) :
  In l y -> ~ In l cls ->
  LabelEncoder.transform (LabelEncoder.mk (Some cls)) y = Raise ValueError.
Proof.
  intros Hin Hnot. unfold LabelEncoder.transform.
  cbn [LabelEncoder.classes_].
  destruct (forallb (LabelEncoder.known cls) y) eqn:Hall; [| reflexivity].
  rewrite forallb_forall in Hall. apply Hall in Hin.
  apply known_In in Hin. contradiction.
Qed.

(** [inverse_transform] after [searchsorted] gives the labels back. *)
Lemma inverse_transform_searchsorted (cls : list string) (y : list string) :
  StronglySorted String_as_OT.lt cls ->
  (forall l, In l y -> In l cls) ->
  LabelEncoder.inverse_transform (LabelEncoder.mk (Some cls))
    (map (np.searchsorted cls) y)
  = Return y.
Proof.
  intros Hsorted Hall. unfold LabelEncoder.inverse_transform.
  cbn [LabelEncoder.classes_].
  replace (forallb _ (map (np.searchsorted cls) y)) with true.
  - f_equal. rewrite map_map. rewrite <- (map_id y) at 2.
    apply map_ext_in. intros l Hl.
    destruct (searchsorted_finds cls l Hsorted (Hall l Hl)) as [_ Hnth].
    now apply nth_error_nth.
  - symmetry. apply forallb_forall. intros i Hi.
    apply in_map_iff in Hi as (l & <- & Hl).
    destruct (searchsorted_finds cls l Hsorted (Hall l Hl)) as [Hrange _].
    apply andb_true_iff. split; [apply Z.leb_le | apply Z.ltb_lt]; lia.
Qed.

End LabelEncoderFacts.

Lemma load_dataset_encoder (self : RNN_model) (df : DF.t) :
  encoder (fst (load_dataset self df))
  = LabelEncoder.mk (Some (np.unique (map DF.label df))).
Proof. reflexivity. Qed.

(** C6. After a file has been loaded, every array of labels that occur in
    the file's label column is transformed to class indices which
    [decode_label] maps back to the same labels. *)
Theorem label_round_trip (self : RNN_model) (df : DF.t)
  (labels : list string) :
  (forall l, In l labels -> In l (map DF.label df)) ->
  exists indices,
    LabelEncoder.transform (encoder (fst (load_dataset self df))) labels
    = Return indices
    /\ decode_label (fst (load_dataset self df)) indices = Return labels.
Proof.
  intros Hfit. unfold decode_label. rewrite load_dataset_encoder.
  assert (Hcls : forall l, In l labels ->
                   In l (np.unique (map DF.label df))).
  { intros l Hl. apply LabelEncoderFacts.unique_In. now apply Hfit. }
  exists (map (np.searchsorted (np.unique (map DF.label df))) labels).
  split.
  - now apply LabelEncoderFacts.transform_known.
  - apply LabelEncoderFacts.inverse_transform_searchsorted;
      [apply LabelEncoderFacts.unique_sorted | assumption].
Qed.

Lemma label_round_trip_witness :
  exists indices,
    LabelEncoder.transform (encoder (fst (load_dataset toy_model toy_df)))
      ["P-B"; "A0-B"; "O"; "P-B"]
    = Return indices
    /\ decode_label (fst (load_dataset toy_model toy_df)) indices
       = Return ["P-B"; "A0-B"; "O"; "P-B"].
Proof.
  apply (label_round_trip toy_model toy_df ["P-B"; "A0-B"; "O"; "P-B"]).
  intros l Hl. simpl in Hl. simpl.
  repeat (destruct Hl as [<- | Hl]; [tauto |]). destruct Hl.
Defined.

Example toy_round_trip :
  LabelEncoder.transform (encoder (fst (load_dataset toy_model toy_df)))
    ["P-B"; "A0-B"; "O"]
  = Return [2; 0; 1]
  /\ decode_label (fst (load_dataset toy_model toy_df)) [2; 0; 1]
     = Return ["P-B"; "A0-B"; "O"].
Proof. split; reflexivity. Qed.

(** ** [encode_inputs] and [encode_outputs] *)

Lemma for_each_Forall2 {A B : Type} (f : A -> result B) (l : list A)
  (bs : list B) :
  for_each f l = Return bs -> Forall2 (fun a b => f a = Return b) l bs.
Proof.
  revert bs. induction l as [| a l' IH]; intros bs Hrun; simpl in Hrun.
  - injection Hrun as <-. constructor.
  - destruct (f a) as [b |] eqn:Hfa; [| discriminate]. simpl in Hrun.
    destruct (for_each f l') as [bs' |]; [| discriminate]. simpl in Hrun.
    injection Hrun as <-. constructor; [assumption | now apply IH].
Qed.

Lemma for_each_returns {A B : Type} (f : A -> result B) (l : list A) :
  (forall a, In a l -> exists b, f a = Return b) ->
  exists bs, for_each f l = Return bs.
Proof.
  induction l as [| a l' IH]; intros Hall; simpl.
  - now exists [].
  - destruct (Hall a (or_introl eq_refl)) as [b ->].
    destruct IH as [bs ->]; [intros a' Ha'; apply Hall; now right |].
    now exists (b :: bs).
Qed.

(** With a pure factory the loop is a [map]. *)
Lemma pad_loop_pure {A : Type} (pad : A) (maxlen : Z)
  (sequences : list (list A)) :
  fst (pad_loop (pure_factory pad) maxlen sequences tt)
  = map (fun s => pad_one maxlen s pad) sequences.
Proof.
  induction sequences as [| s rest IH].
  - reflexivity.
  - rewrite pad_loop_cons. cbn [fst snd pure_factory map]. now rewrite IH.
Qed.

Lemma pad_sequences_pure {A : Type} (pad : A) (sequences : list (list A))
  (maxlen : option Z) :
  sequences <> [] ->
  fst (pad_sequences (pure_factory pad) sequences maxlen tt)
  = Return (map (fun s => pad_one
                            (effective_maxlen (max_observed sequences) maxlen)
                            s pad) sequences).
Proof.
  intros Hne. rewrite pad_sequences_returns by assumption.
  cbn [fst]. now rewrite pad_loop_pure.
Qed.

Lemma pad_sequences_pure_inv {A : Type} (pad : A)
  (sequences ret : list (list A)) (maxlen : option Z) :
  fst (pad_sequences (pure_factory pad) sequences maxlen tt) = Return ret ->
  sequences <> []
  /\ ret = map (fun s => pad_one
                           (effective_maxlen (max_observed sequences) maxlen)
                           s pad) sequences.
Proof.
  intros Hrun. destruct sequences as [| s rest]; [discriminate |].
  split; [discriminate |].
  rewrite pad_sequences_pure in Hrun by discriminate. now injection Hrun.
Qed.

Lemma max_observed_ext {A B : Type} (a : list (list A)) (b : list (list B)) :
  map Py.len a = map Py.len b -> max_observed a = max_observed b.
Proof. unfold max_observed. now intros ->. Qed.

(** The entries of a padded row: those of the sequence, then the pad. *)
Lemma pad_one_nth {A : Type} (maxlen : Z) (s : list A) (pad : A) (j : nat) :
  (j < Z.to_nat maxlen)%nat ->
  nth_error (pad_one maxlen s pad) j
  = match nth_error s j with
    | Some a => Some a
    | None => Some pad
    end.
Proof.
  intros Hj. unfold pad_one, Py.slice_to, Py.replicate.
  destruct (Z.leb_spec 0 maxlen) as [Hm | Hneg]; [| lia].
  destruct (Nat.lt_ge_cases j (length s)) as [Hin | Hout].
  - rewrite nth_error_app1 by (rewrite length_firstn; lia).
    rewrite nth_error_firstn.
    destruct (Nat.ltb_spec j (Z.to_nat maxlen)); [| lia].
    destruct (nth_error s j) eqn:Hnth; [reflexivity |].
    apply nth_error_None in Hnth. lia.
  - assert (Hnone : nth_error s j = None) by now apply nth_error_None.
    rewrite Hnone.
    rewrite nth_error_app2 by (rewrite length_firstn; lia).
    rewrite length_firstn.
    apply nth_error_repeat. unfold Py.len. lia.
Qed.

Lemma transform_inv (enc : LabelEncoder.t) (y : list string)
  (indices : list Z) :
  LabelEncoder.transform enc y = Return indices ->
  exists cls,
    LabelEncoder.classes_ enc = Some cls
    /\ (forall l, In l y -> In l cls)
    /\ indices = map (np.searchsorted cls) y.
Proof.
  unfold LabelEncoder.transform. intros Hrun.
  destruct (LabelEncoder.classes_ enc) as [cls |]; [| discriminate].
  destruct (forallb (LabelEncoder.known cls) y) eqn:Hall; [| discriminate].
  injection Hrun as <-. exists cls. split; [reflexivity |].
  split; [| reflexivity].
  intros l Hl. rewrite forallb_forall in Hall.
  now apply LabelEncoderFacts.known_In, Hall.
Qed.

Lemma to_categorical_inv (y : list Z) (rows : list (list Z)) :
  np_utils.to_categorical y = Return rows ->
  exists m, Py.max y = Return m /\ rows = map (np.one_hot (m + 1)) y.
Proof.
  unfold np_utils.to_categorical. intros Hrun.
  destruct (Py.max y) as [m |]; [| discriminate].
  simpl in Hrun. injection Hrun as <-. now exists m.
Qed.

Lemma to_categorical_empty : np_utils.to_categorical [] = Raise ValueError.
Proof. reflexivity. Qed.

(** The Python expression that encodes one column of one sentence. *)
Lemma encode_inputs_inv (self : RNN_model) (sents : list DF.t)
  (X : EncodedInput) :
  encode_inputs self sents = Return X ->
  sents <> []
  /\ forall column_of : (DF.row -> string) -> list (list Z),
      (forall column,
          column_of column
          = map (fun sent =>
                   map encode
                     (pad_one
                        (effective_maxlen (max_observed sents)
                           (Some (sent_maxlen self)))
                        (map (fun w => mkSample (get_word_index (emb self) w))
                           (map column sent))
                        Pad_sample)) sents) ->
      word_inputs X = column_of DF.word
      /\ predicate_inputs X = column_of DF.pred.
Proof.
  intros Hrun.
  assert (Hne : sents <> []) by (intros ->; discriminate Hrun).
  split; [assumption |]. intros column_of Hcol.
  unfold encode_inputs in Hrun.
  rewrite !pad_sequences_pure in Hrun
    by (intros Hnil; apply map_eq_nil in Hnil; contradiction).
  cbn [bind] in Hrun. injection Hrun as <-. cbn [word_inputs predicate_inputs].
  rewrite !Hcol, !map_map. unfold effective_maxlen.
  split; apply map_ext; intros s; do 3 f_equal;
    apply max_observed_ext; rewrite map_map; apply map_ext; intros s';
    unfold Py.len; now rewrite !length_map.
Qed.

Lemma encode_outputs_inv (self : RNN_model) (sents : list DF.t)
  (Y : EncodedOutput) :
  encode_outputs self sents = Return Y ->
  sents <> []
  /\ exists cls encodings,
      LabelEncoder.classes_ (encoder self) = Some cls
      /\ Forall2 (fun sent rows =>
                   (forall l, In l (map DF.label sent) -> In l cls)
                   /\ exists m,
                       rows = map (np.one_hot (m + 1))
                                (map (np.searchsorted cls)
                                   (map DF.label sent))) sents encodings
      /\ Y = map (fun rows =>
                   pad_one
                     (effective_maxlen (max_observed sents)
                        (Some (sent_maxlen self)))
                     rows (np.zeros (num_of_classes self))) encodings.
Proof.
  unfold encode_outputs. intros Hrun.
  match type of Hrun with
  | bind ?loop _ = _ => destruct loop as [encodings |] eqn:Hloop
  end; [| discriminate].
  cbn [bind] in Hrun.
  apply pad_sequences_pure_inv in Hrun as [Hne ->].
  apply for_each_Forall2 in Hloop.
  assert (Hsents : sents <> []).
  { intros ->. inversion Hloop. now subst. }
  split; [assumption |].
  assert (Hcls : exists cls, LabelEncoder.classes_ (encoder self) = Some cls).
  { destruct sents as [| sent rest]; [congruence |].
    inversion Hloop as [| ? rows ? ? Hhead _]; subst.
    destruct (LabelEncoder.transform (encoder self) (map DF.label sent))
      as [y |] eqn:Ht; [| discriminate].
    apply transform_inv in Ht as (cls & Hcls & _). now exists cls. }
  destruct Hcls as [cls Hcls]. exists cls, encodings.
  split; [assumption |].
  assert (Hall : Forall2 (fun sent rows =>
                   (forall l, In l (map DF.label sent) -> In l cls)
                   /\ exists m,
                       rows = map (np.one_hot (m + 1))
                                (map (np.searchsorted cls)
                                   (map DF.label sent)))
                   sents encodings).
  { eapply Forall2_impl; [| exact Hloop]. cbv beta.
    intros s rows Hs.
    destruct (LabelEncoder.transform (encoder self) (map DF.label s))
      as [y |] eqn:Ht; [| discriminate].
    cbn [bind] in Hs.
    apply transform_inv in Ht as (cls' & Hcls' & Hknown & ->).
    rewrite Hcls in Hcls'. injection Hcls' as <-.
    apply to_categorical_inv in Hs as (m & _ & ->).
    split; [assumption | now exists m]. }
  split; [assumption |].
  apply map_ext. intros rows. do 2 f_equal.
  apply max_observed_ext.
  clear - Hall. induction Hall as [| s rows ss rs [_ [m ->]] _ IH].
  - reflexivity.
  - cbn [map]. rewrite IH. f_equal. unfold Py.len. now rewrite !length_map.
Qed.

Lemma Forall2_nth_error {A B : Type} (P : A -> B -> Prop) (l : list A)
  (l' : list B) (i : nat) (a : A) :
  Forall2 P l l' -> nth_error l i = Some a ->
  exists b, nth_error l' i = Some b /\ P a b.
Proof.
  intros Hall. revert i. induction Hall as [| x y xs ys Hxy _ IH]; intros i.
  - destruct i; discriminate.
  - destruct i as [| i]; simpl.
    + intros [= <-]. now exists y.
    + apply IH.
Qed.

Lemma transform_one (enc : LabelEncoder.t) (cls : list string) (l : string) :
  LabelEncoder.classes_ enc = Some cls -> In l cls ->
  LabelEncoder.transform enc [l] = Return [np.searchsorted cls l].
Proof.
  intros Hcls Hin. unfold LabelEncoder.transform. rewrite Hcls.
  cbn [forallb map].
  now rewrite (proj2 (LabelEncoderFacts.known_In cls l) Hin).
Qed.

(** Before [fit], [encode_outputs] raises before its pad factory runs. *)
Lemma encode_outputs_unfitted (self : RNN_model) (sents : list DF.t) :
  LabelEncoder.classes_ (encoder self) = None ->
  encode_outputs self sents
  = match sents with
    | [] => Raise ValueError
    | _ :: _ => Raise NotFittedError
    end.
Proof.
  intros Hnone. unfold encode_outputs. destruct sents as [| sent rest].
  - reflexivity.
  - cbn [for_each]. unfold LabelEncoder.transform. now rewrite Hnone.
Qed.

Lemma encode_inputs_returns (self : RNN_model) (sents : list DF.t) :
  sents <> [] -> exists X, encode_inputs self sents = Return X.
Proof.
  intros Hne. unfold encode_inputs.
  rewrite !pad_sequences_pure
    by (intros Hnil; apply map_eq_nil in Hnil; contradiction).
  cbn [bind]. eexists. reflexivity.
Qed.

Lemma encode_outputs_returns (self : RNN_model) (sents : list DF.t)
  (cls : list string) :
  LabelEncoder.classes_ (encoder self) = Some cls ->
  sents <> [] ->
  (forall sent, In sent sents ->
     sent <> [] /\ forall r, In r sent -> In (DF.label r) cls) ->
  exists Y, encode_outputs self sents = Return Y.
Proof.
  intros Hcls Hne Hall. unfold encode_outputs.
  match goal with
  | |- exists Y, bind (for_each ?f _) _ = _ =>
      destruct (for_each_returns f sents) as [encodings Hloop]
  end.
  - intros sent Hsent. destruct (Hall sent Hsent) as [Hrows Hknown].
    unfold LabelEncoder.transform. rewrite Hcls.
    replace (forallb (LabelEncoder.known cls) (map DF.label sent)) with true.
    + cbn [bind]. unfold np_utils.to_categorical.
      destruct sent as [| r rest]; [congruence |].
      cbn [map Py.max bind]. eexists. reflexivity.
    + symmetry. apply forallb_forall. intros l Hl.
      apply in_map_iff in Hl as (r & <- & Hr).
      now apply LabelEncoderFacts.known_In, Hknown.
  - rewrite Hloop. cbn [bind].
    assert (Hlen : length encodings = length sents)
      by (symmetry; eapply Forall2_length, for_each_Forall2, Hloop).
    rewrite pad_sequences_pure.
    + eexists. reflexivity.
    + intros ->. destruct sents; [congruence | discriminate].
Qed.

(** C3. When [encode_inputs] and [encode_outputs] are given the same
    sentence groups and both return, the two input arrays and the output
    array have one row per sentence, all rows have the padded length
    min(sent_maxlen, longest sentence), and at every position of every
    sentence the three arrays describe the same table row: its word index,
    its predicate index and the one-hot row of its label, or the pad index
    0 and the all-zero class row past the end of the sentence. *)
Theorem encoded_shapes_agree (self : RNN_model) (sents : list DF.t)
  (X : EncodedInput) (Y : EncodedOutput) :
  encode_inputs self sents = Return X ->
  encode_outputs self sents = Return Y ->
  0 <= sent_maxlen self ->
  let L := Z.min (sent_maxlen self) (max_observed sents) in
  (length (word_inputs X) = length sents
   /\ length (predicate_inputs X) = length sents
   /\ length Y = length sents)
  /\ (rows_have_length L (word_inputs X)
      /\ rows_have_length L (predicate_inputs X)
      /\ rows_have_length L Y)
  /\ forall (i : nat) (sent : DF.t),
      nth_error sents i = Some sent ->
      exists xw xp y,
        nth_error (word_inputs X) i = Some xw
        /\ nth_error (predicate_inputs X) i = Some xp
        /\ nth_error Y i = Some y
        /\ forall j : nat,
            (j < Z.to_nat L)%nat ->
            match nth_error sent j with
            | Some r =>
                nth_error xw j = Some (get_word_index (emb self) (DF.word r))
                /\ nth_error xp j
                   = Some (get_word_index (emb self) (DF.pred r))
                /\ exists k nb,
                    LabelEncoder.transform (encoder self) [DF.label r]
                    = Return [k]
                    /\ nth_error y j = Some (np.one_hot nb k)
            | None =>
                nth_error xw j = Some 0
                /\ nth_error xp j = Some 0
                /\ nth_error y j = Some (np.zeros (num_of_classes self))
            end.
Proof.
  intros HX HY Hmax L.
  apply encode_inputs_inv in HX as [Hne HX].
  destruct (HX _ (fun _ => eq_refl)) as [Hw Hp]. clear HX.
  apply encode_outputs_inv in HY as (_ & cls & encodings & Hcls & Hall & ->).
  assert (HL : effective_maxlen (max_observed sents)
                 (Some (sent_maxlen self)) = L)
    by (unfold L; simpl; lia).
  rewrite HL in *.
  assert (HL0 : 0 <= L)
    by (unfold L; pose proof (max_observed_nonneg sents); lia).
  rewrite Hw, Hp. rewrite !length_map.
  split; [| split].
  - split; [reflexivity | split; [reflexivity |]].
    symmetry. eapply Forall2_length, Hall.
  - unfold rows_have_length. rewrite !Forall_map.
    repeat split; apply Forall_forall; intros s _;
      unfold Py.len; rewrite ?length_map; now apply pad_one_length.
  - intros i sent Hnth.
    destruct (Forall2_nth_error _ _ _ _ _ Hall Hnth)
      as (rows & Hrows & Hknown & m & ->).
    do 3 eexists.
    split; [exact (map_nth_error _ _ _ Hnth) |].
    split; [exact (map_nth_error _ _ _ Hnth) |].
    split; [exact (map_nth_error _ _ _ Hrows) |].
    intros j Hj. rewrite !nth_error_map, !pad_one_nth by assumption.
    rewrite !nth_error_map.
    destruct (nth_error sent j) as [r |] eqn:Hr; cbn [option_map].
    + repeat split. exists (np.searchsorted cls (DF.label r)), (m + 1).
      split; [| reflexivity].
      apply transform_one; [assumption |].
      apply Hknown, in_map. eapply nth_error_In, Hr.
    + repeat split.
Qed.

Lemma encoded_shapes_agree_witness :
  let self := fst (load_dataset toy_model toy_df) in
  let sents := [DF.where_run_id toy_df 0; DF.where_run_id toy_df 1] in
  let X := mkEncodedInput [[4; 4; 0]; [4; 3; 4]] [[4; 4; 0]; [3; 3; 3]] in
  let Y := [ [[1; 0; 0]; [0; 0; 1]; [0; 0; 0]];
             [[1; 0; 0]; [0; 0; 1]; [0; 1; 0]] ] in
  let L := Z.min (sent_maxlen self) (max_observed sents) in
  (encode_inputs self sents = Return X
   /\ encode_outputs self sents = Return Y
   /\ 0 <= sent_maxlen self)
  /\ (length (word_inputs X) = length sents
   /\ length (predicate_inputs X) = length sents
   /\ length Y = length sents)
  /\ (rows_have_length L (word_inputs X)
      /\ rows_have_length L (predicate_inputs X)
      /\ rows_have_length L Y)
  /\ forall (i : nat) (sent : DF.t),
      nth_error sents i = Some sent ->
      exists xw xp y,
        nth_error (word_inputs X) i = Some xw
        /\ nth_error (predicate_inputs X) i = Some xp
        /\ nth_error Y i = Some y
        /\ forall j : nat,
            (j < Z.to_nat L)%nat ->
            match nth_error sent j with
            | Some r =>
                nth_error xw j = Some (get_word_index (emb self) (DF.word r))
                /\ nth_error xp j
                   = Some (get_word_index (emb self) (DF.pred r))
                /\ exists k nb,
                    LabelEncoder.transform (encoder self) [DF.label r]
                    = Return [k]
                    /\ nth_error y j = Some (np.one_hot nb k)
            | None =>
                nth_error xw j = Some 0
                /\ nth_error xp j = Some 0
                /\ nth_error y j = Some (np.zeros (num_of_classes self))
            end.
Proof.
  intros self sents X Y.
  split; [split; [reflexivity | split; [reflexivity | simpl; lia]] |].
  apply (encoded_shapes_agree self sents X Y);
    [reflexivity | reflexivity | simpl; lia].
Defined.

(** A file whose ids fill the interval between two distinct ids loads:
    the premises of the shape property are met by real files. *)
Lemma load_dataset_returns (self : RNN_model) (df : DF.t) :
  (exists r1 r2, In r1 df /\ In r2 df /\ DF.run_id r1 < DF.run_id r2) ->
  (forall i r1 r2, In r1 df -> In r2 df ->
     DF.run_id r1 <= i <= DF.run_id r2 ->
     exists r, In r df /\ DF.run_id r = i) ->
  exists X Y, snd (load_dataset self df) = Return (X, Y).
Proof.
  intros (r1 & r2 & Hr1 & Hr2 & Hlt) Hfill.
  assert (Hne : df <> []) by (intros ->; destruct Hr1).
  destruct (get_sents_from_df_groups df Hne)
    as (lo & hi & Hsents & [Hlo_in Hlo] & [Hhi_in Hhi]).
  set (sents := map (DF.where_run_id df) (Py.range lo hi)) in *.
  assert (Hspan : lo < hi).
  { specialize (Hlo r1 Hr1). specialize (Hhi r2 Hr2). lia. }
  assert (Hlen : length sents = Z.to_nat (hi - lo))
    by (unfold sents; now rewrite length_map, range_length).
  assert (Hgroup : forall k, (k < length sents)%nat ->
            nth_error sents k
            = Some (DF.where_run_id df (lo + Z.of_nat k))).
  { intros k Hk. unfold sents. rewrite nth_error_map, range_nth by lia.
    reflexivity. }
  assert (Hsne : sents <> []).
  { intros Hnil. rewrite Hnil in Hlen. simpl in Hlen. lia. }
  unfold load_dataset. cbn [snd]. rewrite Hsents. cbn [bind].
  set (self' := mkRNN_model _ _ _).
  destruct (encode_inputs_returns self' sents Hsne) as [X ->].
  destruct (encode_outputs_returns self' sents
              (np.unique (map DF.label df)) eq_refl Hsne) as [Y ->].
  - intros sent Hsent.
    apply In_nth_error in Hsent as [k Hk].
    assert (Hklt : (k < length sents)%nat)
      by (apply nth_error_Some; congruence).
    rewrite (Hgroup k Hklt) in Hk. injection Hk as <-.
    apply in_map_iff in Hlo_in as (rlo & Hrlo & Hrlo_in).
    apply in_map_iff in Hhi_in as (rhi & Hrhi & Hrhi_in).
    destruct (Hfill (lo + Z.of_nat k) rlo rhi Hrlo_in Hrhi_in ltac:(lia))
      as (r & Hr & Hid).
    split.
    + intros Hnil.
      assert (Hin : In r (DF.where_run_id df (lo + Z.of_nat k)))
        by now apply where_run_id_In.
      rewrite Hnil in Hin. destruct Hin.
    + intros r' Hr'. apply where_run_id_In in Hr' as [Hr' _].
      apply LabelEncoderFacts.unique_In. now apply in_map.
  - cbn [bind]. now exists X, Y.
Qed.

(** ** Re-fitting the encoder *)

Lemma label_sets_differ (a b : list string) :
  ~ (forall l, In l a <-> In l b) ->
  exists l, (In l a /\ ~ In l b) \/ (In l b /\ ~ In l a).
Proof.
  intros Hdiff.
  destruct (Forall_Exists_dec (fun l => In l b)
              (fun l => in_dec string_dec l b) a) as [Hab | Hab].
  - destruct (Forall_Exists_dec (fun l => In l a)
                (fun l => in_dec string_dec l a) b) as [Hba | Hba].
    + exfalso. apply Hdiff. intros l.
      rewrite Forall_forall in Hab, Hba. split; [apply Hab | apply Hba].
    + apply Exists_exists in Hba as (l & Hl & Hnot). exists l. now right.
  - apply Exists_exists in Hab as (l & Hl & Hnot). exists l. now left.
Qed.

Lemma lists_differ_at (c1 c2 : list string) :
  c1 <> c2 -> exists i, nth_error c1 i <> nth_error c2 i.
Proof.
  revert c2. induction c1 as [| x c1' IH]; intros [| y c2'] Hneq.
  - congruence.
  - now exists 0%nat.
  - now exists 0%nat.
  - destruct (string_dec x y) as [-> | Hxy].
    + destruct (IH c2') as [i Hi]; [congruence |]. now exists (Datatypes.S i).
    + exists 0%nat. simpl. congruence.
Qed.

(** [decode_label] of one index reads that position of [classes_]. *)
Lemma decode_label_one (self : RNN_model) (cls : list string) (i : nat) :
  LabelEncoder.classes_ (encoder self) = Some cls ->
  decode_label self [Z.of_nat i]
  = match nth_error cls i with
    | Some l => Return [l]
    | None => Raise ValueError
    end.
Proof.
  intros Hcls. unfold decode_label, LabelEncoder.inverse_transform.
  rewrite Hcls. cbn [forallb map]. rewrite Nat2Z.id, andb_true_r.
  destruct (nth_error cls i) as [l |] eqn:Hnth.
  - assert (Hlt : (i < length cls)%nat)
      by (apply nth_error_Some; congruence).
    replace ((0 <=? Z.of_nat i) && (Z.of_nat i <? Py.len cls)) with true.
    + now rewrite (nth_error_nth _ _ _ Hnth).
    + symmetry. apply andb_true_iff.
      split; [apply Z.leb_le | apply Z.ltb_lt]; unfold Py.len; lia.
  - apply nth_error_None in Hnth.
    replace (Z.of_nat i <? Py.len cls) with false; [now rewrite andb_false_r |].
    symmetry. apply Z.ltb_ge. unfold Py.len. lia.
Qed.

(** A sentence of one row encodes when its label is fitted, and raises
    when it is not. *)
Lemma encode_outputs_one_row (self : RNN_model) (cls : list string)
  (r : DF.row) :
  LabelEncoder.classes_ (encoder self) = Some cls ->
  if in_dec string_dec (DF.label r) cls
  then exists Y, encode_outputs self [[r]] = Return Y
  else encode_outputs self [[r]] = Raise ValueError.
Proof.
  intros Hcls. destruct (in_dec string_dec (DF.label r) cls) as [Hin | Hnot].
  - apply (encode_outputs_returns self [[r]] cls Hcls); [discriminate |].
    intros sent [<- | []]. split; [discriminate |].
    now intros r' [<- | []].
  - unfold encode_outputs. cbn [for_each map].
    unfold LabelEncoder.transform. rewrite Hcls. cbn [forallb].
    destruct (LabelEncoder.known cls (DF.label r)) eqn:Hknown; [| reflexivity].
    apply LabelEncoderFacts.known_In in Hknown. contradiction.
Qed.

(** C8. Every [load_dataset] fits the model's encoder anew on the label
    column of the file it loads, whatever was fitted before. When a second
    file with a different label set is loaded, the encoder's classes
    change, and with them what [transform], [decode_label] and
    [encode_outputs] return afterwards. *)
Theorem load_dataset_refits (self : RNN_model) (df1 df2 : DF.t) :
  let m1 := fst (load_dataset self df1) in
  let m2 := fst (load_dataset m1 df2) in
  (LabelEncoder.classes_ (encoder m1) = Some (np.unique (map DF.label df1))
   /\ LabelEncoder.classes_ (encoder m2)
      = Some (np.unique (map DF.label df2)))
  /\ (~ same_label_set df1 df2 ->
      LabelEncoder.classes_ (encoder m1)
      <> LabelEncoder.classes_ (encoder m2)
      /\ (exists l, LabelEncoder.transform (encoder m1) [l]
                    <> LabelEncoder.transform (encoder m2) [l])
      /\ (exists i, decode_label m1 [i] <> decode_label m2 [i])
      /\ (exists sents, encode_outputs m1 sents <> encode_outputs m2 sents)).
Proof.
  intros m1 m2.
  set (c1 := np.unique (map DF.label df1)).
  set (c2 := np.unique (map DF.label df2)).
  assert (H1 : LabelEncoder.classes_ (encoder m1) = Some c1) by reflexivity.
  assert (H2 : LabelEncoder.classes_ (encoder m2) = Some c2) by reflexivity.
  split; [now split |]. intros Hdiff.
  assert (Hsets : ~ (forall l, In l c1 <-> In l c2)).
  { intros Hsame. apply Hdiff. intros l.
    split; intros Hl; apply LabelEncoderFacts.unique_In, Hsame;
      now apply LabelEncoderFacts.unique_In. }
  assert (Hneq : c1 <> c2).
  { intros Heq. apply Hsets. intros l. now rewrite Heq. }
  split; [rewrite H1, H2; congruence |].
  destruct (label_sets_differ c1 c2 Hsets) as (l & Hl).
  split; [| split].
  - exists l. unfold LabelEncoder.transform. rewrite H1, H2. cbn [forallb map].
    destruct Hl as [[Hin Hnot] | [Hin Hnot]];
      apply LabelEncoderFacts.known_In in Hin;
      apply LabelEncoderFacts.known_not_In in Hnot;
      rewrite Hin, Hnot; discriminate.
  - destruct (lists_differ_at c1 c2 Hneq) as [i Hi]. exists (Z.of_nat i).
    rewrite (decode_label_one m1 c1 i H1), (decode_label_one m2 c2 i H2).
    destruct (nth_error c1 i), (nth_error c2 i); congruence.
  - exists [[DF.mkRow 0 EmptyString EmptyString l]].
    pose proof (encode_outputs_one_row m1 c1
                  (DF.mkRow 0 EmptyString EmptyString l) H1) as E1.
    pose proof (encode_outputs_one_row m2 c2
                  (DF.mkRow 0 EmptyString EmptyString l) H2) as E2.
    cbn [DF.label] in E1, E2.
    destruct (in_dec string_dec l c1) as [Hin1 | Hnot1],
             (in_dec string_dec l c2) as [Hin2 | Hnot2];
      try (exfalso; tauto).
    + destruct E1 as [Y ->]. rewrite E2. discriminate.
    + destruct E2 as [Y ->]. rewrite E1. discriminate.
Qed.

Lemma load_dataset_refits_witness :
  ~ same_label_set toy_df toy_df2
  /\ let m1 := fst (load_dataset toy_model toy_df) in
     let m2 := fst (load_dataset m1 toy_df2) in
     (LabelEncoder.classes_ (encoder m1) = Some ["A0-B"; "O"; "P-B"]
      /\ LabelEncoder.classes_ (encoder m2) = Some ["A1-B"; "O"; "P-B"])
     /\ LabelEncoder.classes_ (encoder m1)
        <> LabelEncoder.classes_ (encoder m2)
     /\ (exists l, LabelEncoder.transform (encoder m1) [l]
                   <> LabelEncoder.transform (encoder m2) [l])
     /\ (exists i, decode_label m1 [i] <> decode_label m2 [i])
     /\ (exists sents, encode_outputs m1 sents <> encode_outputs m2 sents).
Proof.
  assert (Hdiff : ~ same_label_set toy_df toy_df2).
  { intros Hsame. destruct (Hsame "A0-B") as [Hin _].
    assert (H1 : In "A0-B" (map DF.label toy_df)) by (simpl; tauto).
    apply Hin in H1. simpl in H1.
    repeat (destruct H1 as [H1 | H1]; [discriminate |]). exact H1. }
  split; [exact Hdiff |].
  destruct (load_dataset_refits toy_model toy_df toy_df2) as [Hfit Hchange].
  split; [exact Hfit | exact (Hchange Hdiff)].
Defined.

(** The same class index names another tag after the second file. *)
Example toy_refit :
  let m1 := fst (load_dataset toy_model toy_df) in
  let m2 := fst (load_dataset m1 toy_df2) in
  decode_label m1 [0] = Return ["A0-B"]
  /\ decode_label m2 [0] = Return ["A1-B"]
  /\ LabelEncoder.transform (encoder m1) ["A0-B"] = Return [0]
  /\ LabelEncoder.transform (encoder m2) ["A0-B"] = Raise ValueError.
Proof. repeat split. Qed.

(** A file with a single sentence id gives no group, and padding fails. *)
Example load_dataset_single_sentence :
  snd (load_dataset toy_model [DF.mkRow 0 "dogs" "bark" "A0-B"])
  = Raise ValueError.
Proof. reflexivity. Qed.

(** An id that is skipped gives an empty group: the inputs are encoded,
    the outputs are not. *)
Example encode_skipped_id :
  let df := [DF.mkRow 0 "dogs" "bark" "A0-B"; DF.mkRow 2 "sing" "sing" "P-B"] in
  let self := fst (load_dataset toy_model df) in
  get_sents_from_df df = Return [[DF.mkRow 0 "dogs" "bark" "A0-B"]; []]
  /\ encode_inputs self [[DF.mkRow 0 "dogs" "bark" "A0-B"]; []]
     = Return (mkEncodedInput [[4]; [0]] [[4]; [0]])
  /\ encode_outputs self [[DF.mkRow 0 "dogs" "bark" "A0-B"]; []]
     = Raise ValueError.
Proof. repeat split. Qed.

(** * Further properties of the code *)

(** ** [pad_sequences]: composition, side effect and edge cases *)

Section PadSequencesMore.

Context {A S : Type}.
Variable pad_func : S -> A * S.

Lemma max_observed_of_rows (n : Z) (rows : list (list A)) :
  rows <> [] -> rows_have_length n rows -> max_observed rows = n.
Proof.
  intros Hne Hrows. destruct rows as [| r rest]; [congruence |]. clear Hne.
  revert r Hrows. induction rest as [| r' rest IH]; intros r Hrows.
  - inversion Hrows as [| ? ? Hr _]; subst. unfold max_observed. simpl.
    pose proof (len_nonneg r). lia.
  - inversion Hrows as [| ? ? Hr Hrest]; subst.
    specialize (IH r' Hrest).
    change (max_observed (r :: r' :: rest))
      with (Z.max (Py.len r) (max_observed (r' :: rest))).
    inversion Hrest; subst. lia.
Qed.

Lemma pad_loop_fixed_rows (n : Z) (rows : list (list A)) (st : S) :
  rows_have_length n rows ->
  fst (pad_loop pad_func n rows st) = rows.
Proof.
  intros Hrows. revert st.
  induction Hrows as [| r rest Hr _ IH]; intros st.
  - reflexivity.
  - rewrite pad_loop_cons. cbn [fst]. rewrite IH. f_equal.
    rewrite pad_one_pads by lia.
    replace (Z.to_nat (n - Py.len r)) with 0%nat by lia.
    apply app_nil_r.
Qed.

(** X1. Padding is idempotent: what [pad_sequences] returned for a
    requested length comes back unchanged when it is padded again to the
    same length. *)
Theorem pad_sequences_idempotent (sequences ret : list (list A))
  (maxlen : option Z) (st st' st2 : S) :
  is_length maxlen ->
  pad_sequences pad_func sequences maxlen st = (Return ret, st') ->
  fst (pad_sequences pad_func ret maxlen st2) = Return ret.
Proof.
  intros Hlen Hrun.
  assert (Hne : sequences <> []) by (intros ->; discriminate Hrun).
  rewrite (pad_sequences_returns pad_func _ maxlen st Hne) in Hrun.
  injection Hrun as <- _.
  set (eff := effective_maxlen (max_observed sequences) maxlen).
  assert (Heff : 0 <= eff) by now apply effective_maxlen_nonneg.
  pose proof (pad_loop_rows pad_func eff sequences st Heff) as Hrows.
  pose proof (pad_loop_length pad_func eff sequences st) as Hcount.
  set (ret := fst (pad_loop pad_func eff sequences st)) in *.
  assert (Hret : ret <> []).
  { intros Hnil. rewrite Hnil in Hcount. destruct sequences; [congruence |].
    discriminate. }
  rewrite (pad_sequences_returns pad_func _ maxlen st2 Hret). cbn [fst].
  rewrite (max_observed_of_rows eff ret Hret Hrows).
  replace (effective_maxlen eff maxlen) with eff.
  - now rewrite pad_loop_fixed_rows.
  - unfold eff. destruct maxlen as [L |]; simpl; lia.
Qed.

(** X2. When no length is requested, or the requested length is not below
    the longest sequence, nothing is cut: every output is its input
    followed by pad values up to the longest input's length. *)
Theorem pad_sequences_keeps_all (sequences : list (list A))
  (maxlen : option Z) (st : S) (i : nat) (s : list A) :
  match maxlen with
  | None => True
  | Some L => max_observed sequences <= L
  end ->
  nth_error sequences i = Some s ->
  exists ret st',
    pad_sequences pad_func sequences maxlen st = (Return ret, st')
    /\ nth_error ret i
       = Some (s ++ repeat (pad_at pad_func i st)
                      (Z.to_nat (max_observed sequences - Py.len s))).
Proof.
  intros Hmax Hnth. eexists. eexists.
  split; [apply pad_sequences_returns; eapply nth_error_nonempty; eassumption |].
  rewrite (pad_loop_nth pad_func _ _ _ _ _ Hnth). f_equal.
  assert (Heff : effective_maxlen (max_observed sequences) maxlen
                 = max_observed sequences)
    by (destruct maxlen; simpl; lia).
  rewrite Heff. apply pad_one_pads.
  apply max_observed_upper. eapply nth_error_In, Hnth.
Qed.

(** X3. A negative [maxlen] is not rejected: it reaches the slice, so each
    output is its input without the last [-maxlen] elements, nothing is
    padded, and the outputs differ in length as the inputs do. *)
Theorem pad_sequences_negative_maxlen (sequences : list (list A))
  (L : Z) (st : S) (i : nat) (s : list A) :
  L < 0 ->
  nth_error sequences i = Some s ->
  exists ret st',
    pad_sequences pad_func sequences (Some L) st = (Return ret, st')
    /\ nth_error ret i = Some (firstn (length s - Z.to_nat (- L)) s).
Proof.
  intros Hneg Hnth. eexists. eexists.
  split; [apply pad_sequences_returns; eapply nth_error_nonempty; eassumption |].
  rewrite (pad_loop_nth pad_func _ _ _ _ _ Hnth). f_equal.
  pose proof (max_observed_nonneg sequences) as Hmax.
  assert (Heff : effective_maxlen (max_observed sequences) (Some L) = L)
    by (simpl; lia).
  rewrite Heff. unfold pad_one, Py.slice_to, Py.replicate.
  destruct (Z.leb_spec 0 L) as [Hge | _]; [lia |].
  pose proof (len_nonneg s).
  replace (Z.to_nat (L - Py.len s)) with 0%nat by lia.
  cbn [repeat]. rewrite app_nil_r. f_equal. unfold Py.len. lia.
Qed.

(** X4. The pad factory is called exactly once per input sequence, also
    for sequences that need no padding, and not at all on an empty
    collection: the state after the call is the state after that many
    factory calls. *)
Theorem pad_sequences_factory_calls (sequences : list (list A))
  (maxlen : option Z) (st : S) :
  snd (pad_sequences pad_func sequences maxlen st)
  = state_at pad_func (length sequences) st.
Proof.
  destruct sequences as [| s rest].
  - reflexivity.
  - now rewrite pad_sequences_returns by discriminate.
Qed.

End PadSequencesMore.

Lemma pad_sequences_idempotent_witness :
  fst (pad_sequences (pure_factory 0) [[1; 2]; [4; 5]] (Some 2) tt)
  = Return [[1; 2]; [4; 5]].
Proof.
  apply (pad_sequences_idempotent (pure_factory 0) [[1; 2; 3]; [4; 5]]
           [[1; 2]; [4; 5]] (Some 2) tt tt tt); [simpl; lia | reflexivity].
Defined.

Lemma pad_sequences_keeps_all_witness :
  exists ret st',
    pad_sequences (fun n : Z => (n, n + 1)) [[7; 7; 7]; [7]] (Some 5) 10
    = (Return ret, st')
    /\ nth_error ret 1 = Some [7; 11; 11].
Proof.
  apply (pad_sequences_keeps_all (fun n : Z => (n, n + 1))
           [[7; 7; 7]; [7]] (Some 5) 10 1 [7]);
    [vm_compute; discriminate | reflexivity].
Defined.

Lemma pad_sequences_negative_maxlen_witness :
  exists ret st',
    pad_sequences (pure_factory 0) [[1; 2; 3]; [4; 5]] (Some (-2)) tt
    = (Return ret, st')
    /\ nth_error ret 0 = Some [1].
Proof.
  apply (pad_sequences_negative_maxlen (pure_factory 0)
           [[1; 2; 3]; [4; 5]] (-2) tt 0 [1; 2; 3]); [lia | reflexivity].
Defined.

(** ** [get_sents_from_df]: the empty file and the rows that are lost *)

(** X5. [get_sents_from_df] raises, with the [ValueError] of a minimum
    over nothing, exactly on a file without rows. *)
Theorem get_sents_from_df_raises_iff_empty (df : DF.t) :
  (df = [] <-> get_sents_from_df df = Raise ValueError)
  /\ (df <> [] <-> exists sents, get_sents_from_df df = Return sents).
Proof.
  destruct df as [| r rest].
  - split; split; try reflexivity; try congruence.
    intros [sents Hrun]. discriminate.
  - destruct (get_sents_from_df_groups (r :: rest)) as (lo & hi & Hrun & _);
      [discriminate |].
    rewrite Hrun. split; split; try discriminate.
    intros _. eexists. reflexivity.
Qed.

Lemma filter_split_length {A : Type} (f g h : A -> bool) (l : list A) :
  (forall a, h a = f a || g a) -> (forall a, f a && g a = false) ->
  length (filter h l) = (length (filter f l) + length (filter g l))%nat.
Proof.
  intros Hor Hdisj. induction l as [| a l' IH]; [reflexivity |].
  cbn [filter]. rewrite (Hor a). specialize (Hdisj a).
  destruct (f a), (g a); cbn [orb length] in *; try discriminate; lia.
Qed.

Lemma range_snoc (lo : Z) (n : nat) :
  Py.range lo (lo + Z.of_nat (Datatypes.S n))
  = Py.range lo (lo + Z.of_nat n) ++ [lo + Z.of_nat n].
Proof.
  unfold Py.range.
  replace (Z.to_nat (lo + Z.of_nat (Datatypes.S n) - lo))
    with (Datatypes.S n) by lia.
  replace (Z.to_nat (lo + Z.of_nat n - lo)) with n by lia.
  rewrite seq_S, map_app. reflexivity.
Qed.

(** The groups of the ids in an interval hold, together, as many rows as
    the file has rows with an id in the interval. *)
Lemma groups_row_count (df : DF.t) (lo : Z) (n : nat) :
  length (concat (map (DF.where_run_id df) (Py.range lo (lo + Z.of_nat n))))
  = length (filter (fun r => (lo <=? DF.run_id r)
                             && (DF.run_id r <? lo + Z.of_nat n)) df).
Proof.
  induction n as [| n IH].
  - replace (lo + Z.of_nat 0) with lo by lia.
    unfold Py.range. rewrite Z.sub_diag. cbn [Z.to_nat seq map concat length].
    symmetry. apply length_zero_iff_nil.
    induction df as [| r df' IHdf]; [reflexivity |]. cbn [filter].
    destruct (Z.leb_spec lo (DF.run_id r)), (Z.ltb_spec (DF.run_id r) lo);
      cbn [andb]; try assumption; lia.
  - rewrite range_snoc, map_app, concat_app, length_app, IH.
    cbn [map concat]. rewrite app_nil_r. unfold DF.where_run_id.
    symmetry. apply filter_split_length; intros r.
    + destruct (Z.leb_spec lo (DF.run_id r)),
        (Z.ltb_spec (DF.run_id r) (lo + Z.of_nat (Datatypes.S n))),
        (Z.ltb_spec (DF.run_id r) (lo + Z.of_nat n)),
        (Z.eqb_spec (DF.run_id r) (lo + Z.of_nat n));
        cbn [andb orb]; try reflexivity; lia.
    + destruct (Z.leb_spec lo (DF.run_id r)),
        (Z.ltb_spec (DF.run_id r) (lo + Z.of_nat n)),
        (Z.eqb_spec (DF.run_id r) (lo + Z.of_nat n));
        cbn [andb]; try reflexivity; lia.
Qed.

Lemma filter_drops {A : Type} (f : A -> bool) (l : list A) (a : A) :
  In a l -> f a = false -> (length (filter f l) < length l)%nat.
Proof.
  intros Hin Hfa. induction l as [| b l' IH]; [destruct Hin |].
  pose proof (filter_length_le f l') as Hle. cbn [filter length].
  destruct Hin as [-> | Hin].
  - rewrite Hfa. lia.
  - specialize (IH Hin). destruct (f b); cbn [length]; lia.
Qed.

(** X6. On a file with rows the groups hold exactly the rows whose id is
    below the greatest id of the file; the rows of the last sentence are
    in no group, so the groups always hold fewer rows than the file. *)
Theorem get_sents_from_df_loses_rows (df : DF.t) :
  df <> [] ->
  exists hi sents,
    get_sents_from_df df = Return sents
    /\ (In hi (map DF.run_id df) /\ forall r, In r df -> DF.run_id r <= hi)
    /\ length (concat sents)
       = length (filter (fun r => DF.run_id r <? hi) df)
    /\ (length (concat sents) < length df)%nat.
Proof.
  intros Hne.
  destruct (get_sents_from_df_groups df Hne)
    as (lo & hi & Hrun & [Hlo_in Hlo] & [Hhi_in Hhi]).
  exists hi, (map (DF.where_run_id df) (Py.range lo hi)).
  split; [assumption |]. split; [now split |].
  assert (Hspan : lo <= hi).
  { apply in_map_iff in Hhi_in as (r & <- & Hr). now apply Hlo. }
  assert (Hcount : length (concat (map (DF.where_run_id df) (Py.range lo hi)))
                   = length (filter (fun r => DF.run_id r <? hi) df)).
  { replace hi with (lo + Z.of_nat (Z.to_nat (hi - lo))) at 1 by lia.
    rewrite groups_row_count. f_equal. apply filter_ext_in. intros r Hr.
    specialize (Hlo r Hr).
    replace (lo + Z.of_nat (Z.to_nat (hi - lo))) with hi by lia.
    destruct (Z.leb_spec lo (DF.run_id r)); [reflexivity | lia]. }
  split; [assumption |]. rewrite Hcount.
  apply in_map_iff in Hhi_in as (r & Hid & Hr).
  apply (filter_drops _ df r Hr). apply Z.ltb_ge. lia.
Qed.

Lemma get_sents_from_df_loses_rows_witness :
  exists hi sents,
    get_sents_from_df toy_df = Return sents
    /\ (In hi (map DF.run_id toy_df)
        /\ forall r, In r toy_df -> DF.run_id r <= hi)
    /\ length (concat sents)
       = length (filter (fun r => DF.run_id r <? hi) toy_df)
    /\ (length (concat sents) < length toy_df)%nat.
Proof. apply (get_sents_from_df_loses_rows toy_df). discriminate. Defined.

(** ** The label vocabulary after [load_dataset] *)

Lemma sorted_NoDup (cls : list string) :
  StronglySorted String_as_OT.lt cls -> NoDup cls.
Proof.
  induction 1 as [| x cls' _ IH Hall]; constructor; [| assumption].
  intros Hin. rewrite Forall_forall in Hall. specialize (Hall x Hin).
  revert Hall. apply irreflexivity.
Qed.

(** Two sorted arrays without repetition that hold the same values are
    the same array. *)
Lemma sorted_same_values (c1 c2 : list string) :
  StronglySorted String_as_OT.lt c1 -> StronglySorted String_as_OT.lt c2 ->
  (forall l, In l c1 <-> In l c2) -> c1 = c2.
Proof.
  intros H1. revert c2.
  induction H1 as [| x c1' Hs1 IH Hall1]; intros c2 H2 Hsame.
  - destruct c2 as [| y c2']; [reflexivity |].
    destruct (proj2 (Hsame y) (or_introl eq_refl)).
  - destruct H2 as [| y c2' Hs2 Hall2].
    + destruct (proj1 (Hsame x) (or_introl eq_refl)).
    + rewrite Forall_forall in Hall1, Hall2.
      assert (Hxy : x = y).
      { destruct (proj1 (Hsame x) (or_introl eq_refl)) as [Heq | Hx];
          [now symmetry |].
        destruct (proj2 (Hsame y) (or_introl eq_refl)) as [Heq | Hy];
          [assumption |].
        exfalso. apply (irreflexivity (R := String_as_OT.lt) (x := x)).
        transitivity y; [now apply Hall1 | now apply Hall2]. }
      subst y. f_equal. apply IH; [assumption |].
      intros l. split; intros Hl.
      * destruct (proj1 (Hsame l) (or_intror Hl)) as [<- | Hin];
          [| assumption].
        exfalso. apply (irreflexivity (R := String_as_OT.lt) (x := x)).
        now apply Hall1.
      * destruct (proj2 (Hsame l) (or_intror Hl)) as [<- | Hin];
          [| assumption].
        exfalso. apply (irreflexivity (R := String_as_OT.lt) (x := x)).
        now apply Hall2.
Qed.

(** In a sorted array without repetition [searchsorted] returns the
    position of the value it is given. *)
Lemma searchsorted_index (cls : list string) (i : nat) (l : string) :
  StronglySorted String_as_OT.lt cls ->
  nth_error cls i = Some l -> np.searchsorted cls l = Z.of_nat i.
Proof.
  intros Hsorted. revert i.
  induction Hsorted as [| y cls' _ IH Hall]; intros i Hnth.
  - destruct i; discriminate.
  - cbn [np.searchsorted]. destruct i as [| i].
    + injection Hnth as ->. now rewrite LabelEncoderFacts.compare_refl.
    + cbn [nth_error] in Hnth. rewrite Forall_forall in Hall.
      rewrite (LabelEncoderFacts.compare_Lt _ _
                 (Hall l (nth_error_In _ _ Hnth))).
      rewrite (IH i Hnth). lia.
Qed.

(** X7. After [load_dataset] the classes of the encoder are the labels of
    the file, each once, in increasing order; [num_of_classes] is their
    number, which is at most the number of rows. *)
Theorem load_dataset_classes (self : RNN_model) (df : DF.t) :
  exists cls,
    LabelEncoder.classes_ (encoder (fst (load_dataset self df))) = Some cls
    /\ (forall l, In l cls <-> In l (map DF.label df))
    /\ StronglySorted String_as_OT.lt cls
    /\ NoDup cls
    /\ num_of_classes (fst (load_dataset self df)) = Py.len cls
    /\ Py.len cls <= Py.len df.
Proof.
  exists (np.unique (map DF.label df)).
  pose proof (LabelEncoderFacts.unique_sorted (map DF.label df)) as Hsorted.
  pose proof (sorted_NoDup _ Hsorted) as Hnodup.
  repeat split; try assumption; try reflexivity;
    try (now apply LabelEncoderFacts.unique_In).
  unfold Py.len. apply inj_le.
  rewrite <- (length_map DF.label df).
  apply NoDup_incl_length; [assumption |].
  intros l Hl. now apply LabelEncoderFacts.unique_In.
Qed.

(** X8. The fitted vocabulary depends on the set of labels of the file
    only: files with the same label set give the same encoder, whatever
    the order and the number of their rows and whatever the model held
    before. *)
Theorem load_dataset_same_labels (self1 self2 : RNN_model)
  (df1 df2 : DF.t) :
  same_label_set df1 df2 ->
  encoder (fst (load_dataset self1 df1))
  = encoder (fst (load_dataset self2 df2)).
Proof.
  intros Hsame. rewrite !load_dataset_encoder. do 2 f_equal.
  apply sorted_same_values; try apply LabelEncoderFacts.unique_sorted.
  intros l. rewrite !LabelEncoderFacts.unique_In. apply Hsame.
Qed.

Lemma in_range_forallb (n : Z) (indices : list Z) :
  (forall i, In i indices -> 0 <= i < n) ->
  forallb (fun i => (0 <=? i) && (i <? n)) indices = true.
Proof.
  intros Hall. apply forallb_forall. intros i Hi. specialize (Hall i Hi).
  apply andb_true_iff. split; [apply Z.leb_le | apply Z.ltb_lt]; lia.
Qed.

(** X9. The other round trip: after a file has been loaded, every array
    of class indices below [num_of_classes] is decoded to labels that
    [transform] maps back to the same indices. *)
Theorem index_round_trip (self : RNN_model) (df : DF.t)
  (indices : list Z) :
  (forall i, In i indices ->
     0 <= i < num_of_classes (fst (load_dataset self df))) ->
  exists labels,
    decode_label (fst (load_dataset self df)) indices = Return labels
    /\ LabelEncoder.transform (encoder (fst (load_dataset self df))) labels
       = Return indices.
Proof.
  intros Hrange. unfold decode_label, num_of_classes in *.
  rewrite load_dataset_encoder in *. cbn [LabelEncoder.classes_] in *.
  set (cls := np.unique (map DF.label df)) in *.
  pose proof (LabelEncoderFacts.unique_sorted (map DF.label df)) as Hsorted.
  fold cls in Hsorted.
  unfold LabelEncoder.inverse_transform. cbn [LabelEncoder.classes_].
  rewrite (in_range_forallb _ _ Hrange).
  eexists. split; [reflexivity |].
  assert (Hnth : forall i, In i indices ->
            nth_error cls (Z.to_nat i)
            = Some (nth (Z.to_nat i) cls EmptyString)).
  { intros i Hi. specialize (Hrange i Hi). apply nth_error_nth'.
    unfold Py.len in Hrange. lia. }
  rewrite LabelEncoderFacts.transform_known.
  - f_equal. rewrite map_map. rewrite <- (map_id indices) at 2.
    apply map_ext_in. intros i Hi.
    rewrite (searchsorted_index cls (Z.to_nat i) _ Hsorted (Hnth i Hi)).
    specialize (Hrange i Hi). lia.
  - intros l Hl. apply in_map_iff in Hl as (i & <- & Hi).
    eapply nth_error_In, Hnth, Hi.
Qed.

Lemma index_round_trip_witness :
  exists labels,
    decode_label (fst (load_dataset toy_model toy_df)) [2; 0; 0; 1]
    = Return labels
    /\ LabelEncoder.transform (encoder (fst (load_dataset toy_model toy_df)))
         labels
       = Return [2; 0; 0; 1].
Proof.
  apply (index_round_trip toy_model toy_df [2; 0; 0; 1]).
  intros i Hi. simpl in Hi. vm_compute.
  repeat (destruct Hi as [<- | Hi]; [split; [discriminate | reflexivity] |]).
  destruct Hi.
Defined.

Lemma load_dataset_same_labels_witness :
  encoder (fst (load_dataset toy_model toy_df))
  = encoder (fst (load_dataset toy_model (rev toy_df ++ toy_df))).
Proof.
  apply (load_dataset_same_labels toy_model toy_model
           toy_df (rev toy_df ++ toy_df)).
  intros l. simpl. tauto.
Defined.

(** X10. After a file has been loaded, each of its labels is transformed
    to a class index that lies in [0, num_of_classes), and two labels
    have the same index only if they are the same label. *)
Theorem transform_index_valid (self : RNN_model) (df : DF.t)
  (l1 l2 : string) :
  In l1 (map DF.label df) -> In l2 (map DF.label df) ->
  exists i1 i2,
    LabelEncoder.transform (encoder (fst (load_dataset self df))) [l1]
    = Return [i1]
    /\ LabelEncoder.transform (encoder (fst (load_dataset self df))) [l2]
       = Return [i2]
    /\ 0 <= i1 < num_of_classes (fst (load_dataset self df))
    /\ 0 <= i2 < num_of_classes (fst (load_dataset self df))
    /\ (i1 = i2 -> l1 = l2).
Proof.
  intros H1 H2. unfold num_of_classes. rewrite load_dataset_encoder.
  cbn [LabelEncoder.classes_].
  set (cls := np.unique (map DF.label df)).
  pose proof (LabelEncoderFacts.unique_sorted (map DF.label df)) as Hsorted.
  fold cls in Hsorted.
  apply (LabelEncoderFacts.unique_In l1) in H1. fold cls in H1.
  apply (LabelEncoderFacts.unique_In l2) in H2. fold cls in H2.
  destruct (LabelEncoderFacts.searchsorted_finds cls l1 Hsorted H1)
    as [Hr1 Hn1].
  destruct (LabelEncoderFacts.searchsorted_finds cls l2 Hsorted H2)
    as [Hr2 Hn2].
  exists (np.searchsorted cls l1), (np.searchsorted cls l2).
  split; [apply transform_one; [reflexivity | assumption] |].
  split; [apply transform_one; [reflexivity | assumption] |].
  split; [assumption |]. split; [assumption |].
  intros Heq. rewrite Heq in Hn1. congruence.
Qed.

Lemma transform_index_valid_witness :
  exists i1 i2,
    LabelEncoder.transform (encoder (fst (load_dataset toy_model toy_df)))
      ["O"] = Return [i1]
    /\ LabelEncoder.transform (encoder (fst (load_dataset toy_model toy_df)))
         ["P-B"] = Return [i2]
    /\ 0 <= i1 < num_of_classes (fst (load_dataset toy_model toy_df))
    /\ 0 <= i2 < num_of_classes (fst (load_dataset toy_model toy_df))
    /\ (i1 = i2 -> "O" = "P-B").
Proof.
  apply (transform_index_valid toy_model toy_df "O" "P-B"); simpl; tauto.
Defined.

(** ** When the encoders and [load_dataset] return, and what they raise *)

Lemma for_each_raise_inv {A B : Type} (f : A -> result B) (l : list A)
  (e : exn) :
  for_each f l = Raise e -> exists a, In a l /\ f a = Raise e.
Proof.
  induction l as [| a l' IH]; intros Hrun; simpl in Hrun; [discriminate |].
  destruct (f a) as [b |] eqn:Hfa; simpl in Hrun.
  - destruct (for_each f l') as [bs |]; simpl in Hrun; [discriminate |].
    destruct (IH Hrun) as (a' & Hin & Ha'). exists a'. split; [now right | easy].
  - exists a. split; [now left | congruence].
Qed.

Lemma for_each_return_all {A B : Type} (f : A -> result B) (l : list A)
  (bs : list B) (a : A) :
  for_each f l = Return bs -> In a l -> exists b, f a = Return b.
Proof.
  intros Hrun Hin. apply for_each_Forall2 in Hrun.
  apply In_nth_error in Hin as [i Hi].
  destruct (Forall2_nth_error _ _ _ _ _ Hrun Hi) as (b & _ & Hb).
  now exists b.
Qed.

(** What the body of the loop of [encode_outputs] does with one group,
    on a fitted encoder. *)
Lemma encode_group_outcome (enc : LabelEncoder.t) (cls : list string)
  (sent : DF.t) :
  LabelEncoder.classes_ enc = Some cls ->
  (sent <> [] /\ (forall r, In r sent -> In (DF.label r) cls) ->
   exists rows,
     (y <- LabelEncoder.transform enc (map DF.label sent) ;;
      np_utils.to_categorical y) = Return rows)
  /\ (~ (sent <> [] /\ (forall r, In r sent -> In (DF.label r) cls)) ->
      (y <- LabelEncoder.transform enc (map DF.label sent) ;;
       np_utils.to_categorical y) = Raise ValueError).
Proof.
  intros Hcls. unfold LabelEncoder.transform. rewrite Hcls.
  destruct (forallb (LabelEncoder.known cls) (map DF.label sent)) eqn:Hall.
  - assert (Hknown : forall r, In r sent -> In (DF.label r) cls).
    { intros r Hr. rewrite forallb_forall in Hall.
      apply LabelEncoderFacts.known_In, Hall. now apply in_map. }
    destruct sent as [| r rest].
    + split; [intros [Hne _]; congruence | reflexivity].
    + split.
      * intros _. cbn [bind]. unfold np_utils.to_categorical.
        cbn [map Py.max bind]. eexists. reflexivity.
      * intros Hbad. exfalso. apply Hbad. split; [discriminate | assumption].
  - split; [| reflexivity]. intros [_ Hknown]. exfalso.
    assert (Htrue : forallb (LabelEncoder.known cls) (map DF.label sent)
                    = true).
    { apply forallb_forall. intros l Hl.
      apply in_map_iff in Hl as (r & <- & Hr).
      now apply LabelEncoderFacts.known_In, Hknown. }
    congruence.
Qed.

Lemma encode_group_cases (enc : LabelEncoder.t) (cls : list string)
  (sent : DF.t) :
  LabelEncoder.classes_ enc = Some cls ->
  (sent <> [] /\ (forall r, In r sent -> In (DF.label r) cls))
  \/ (y <- LabelEncoder.transform enc (map DF.label sent) ;;
      np_utils.to_categorical y) = Raise ValueError.
Proof.
  intros Hcls. destruct (encode_group_outcome enc cls sent Hcls) as [_ Hbad].
  destruct sent as [| r rest].
  - right. apply Hbad. intros [Hne _]. congruence.
  - destruct (forallb (LabelEncoder.known cls) (map DF.label (r :: rest)))
      eqn:Hall.
    + left. split; [discriminate |]. intros r' Hr'.
      rewrite forallb_forall in Hall.
      apply LabelEncoderFacts.known_In, Hall. now apply in_map.
    + right. apply Hbad. intros [_ Hknown].
      assert (Htrue : forallb (LabelEncoder.known cls)
                        (map DF.label (r :: rest)) = true).
      { apply forallb_forall. intros l Hl.
        apply in_map_iff in Hl as (r' & <- & Hr').
        now apply LabelEncoderFacts.known_In, Hknown. }
      congruence.
Qed.

Lemma encode_inputs_outcome_cases (self : RNN_model) (sents : list DF.t) :
  (exists X, encode_inputs self sents = Return X)
  \/ encode_inputs self sents = Raise ValueError.
Proof.
  destruct sents as [| sent rest].
  - now right.
  - left. apply encode_inputs_returns. discriminate.
Qed.

(** X11. [encode_inputs] raises only for no groups at all, with the
    [ValueError] of [pad_sequences]; it returns on every other argument,
    whether the encoder is fitted or not. *)
Theorem encode_inputs_outcome (self : RNN_model) (sents : list DF.t) :
  match sents with
  | [] => encode_inputs self sents = Raise ValueError
  | _ :: _ => exists X, encode_inputs self sents = Return X
  end.
Proof.
  destruct sents as [| sent rest].
  - reflexivity.
  - apply encode_inputs_returns. discriminate.
Qed.

Lemma encode_outputs_return_inv (self : RNN_model) (sents : list DF.t)
  (cls : list string) (Y : EncodedOutput) :
  LabelEncoder.classes_ (encoder self) = Some cls ->
  encode_outputs self sents = Return Y ->
  sents <> []
  /\ forall sent, In sent sents ->
       sent <> [] /\ forall r, In r sent -> In (DF.label r) cls.
Proof.
  intros Hcls HY. unfold encode_outputs in HY.
  match type of HY with
  | bind ?loop _ = _ => destruct loop as [encodings |] eqn:Hloop
  end; [| discriminate].
  cbn [bind] in HY. apply pad_sequences_pure_inv in HY as [Hne _].
  split.
  - intros ->. cbn [for_each] in Hloop. injection Hloop as <-. congruence.
  - intros sent Hsent.
    destruct (for_each_return_all _ _ _ sent Hloop Hsent) as [rows Hrows].
    destruct (encode_group_cases (encoder self) cls sent Hcls)
      as [Hgood | Hbad]; [assumption |].
    cbv beta in Hrows. congruence.
Qed.

Lemma encode_outputs_raise_inv (self : RNN_model) (sents : list DF.t)
  (cls : list string) (e : exn) :
  LabelEncoder.classes_ (encoder self) = Some cls ->
  encode_outputs self sents = Raise e -> e = ValueError.
Proof.
  intros Hcls He. unfold encode_outputs in He.
  match type of He with
  | bind ?loop _ = _ => destruct loop as [encodings |] eqn:Hloop
  end; cbn [bind] in He.
  - destruct encodings as [| rows rest].
    + cbn in He. congruence.
    + rewrite pad_sequences_pure in He by discriminate. discriminate.
  - injection He as <-.
    apply for_each_raise_inv in Hloop as (sent & _ & Hsent).
    destruct (encode_group_cases (encoder self) cls sent Hcls)
      as [Hgood | Hbad].
    + destruct (encode_group_outcome (encoder self) cls sent Hcls)
        as [Hret _].
      destruct (Hret Hgood) as [rows Hrows].
      cbv beta in Hsent. congruence.
    + cbv beta in Hsent. congruence.
Qed.

(** X12. On a fitted encoder [encode_outputs] returns exactly when there
    is a group, no group is empty and every label of every group was
    fitted; in every other case it raises [ValueError]. *)
Theorem encode_outputs_outcome (self : RNN_model) (sents : list DF.t)
  (cls : list string) :
  LabelEncoder.classes_ (encoder self) = Some cls ->
  ((sents <> []
    /\ forall sent, In sent sents ->
         sent <> [] /\ forall r, In r sent -> In (DF.label r) cls)
   <-> exists Y, encode_outputs self sents = Return Y)
  /\ (forall e, encode_outputs self sents = Raise e -> e = ValueError).
Proof.
  intros Hcls. split; [split |].
  - intros [Hne Hall]. now apply (encode_outputs_returns self sents cls).
  - intros [Y HY]. now apply (encode_outputs_return_inv self sents cls Y).
  - intros e. now apply (encode_outputs_raise_inv self sents cls).
Qed.

Lemma encode_outputs_outcome_witness :
  ((map (DF.where_run_id toy_df) [0; 1] <> []
    /\ forall sent, In sent (map (DF.where_run_id toy_df) [0; 1]) ->
         sent <> []
         /\ forall r, In r sent -> In (DF.label r) ["A0-B"; "O"; "P-B"])
   <-> exists Y,
         encode_outputs (fst (load_dataset toy_model toy_df))
           (map (DF.where_run_id toy_df) [0; 1]) = Return Y)
  /\ (forall e,
        encode_outputs (fst (load_dataset toy_model toy_df))
          (map (DF.where_run_id toy_df) [0; 1]) = Raise e ->
        e = ValueError).
Proof.
  apply (encode_outputs_outcome (fst (load_dataset toy_model toy_df))
           (map (DF.where_run_id toy_df) [0; 1]) ["A0-B"; "O"; "P-B"]).
  reflexivity.
Defined.

Lemma encode_column_empty_group (p : Sample) (L : Z) :
  map encode (pad_one L [] p) = repeat (encode p) (Z.to_nat L).
Proof.
  unfold pad_one, Py.slice_to, Py.replicate.
  replace (firstn (Z.to_nat L) (@nil Sample)) with (@nil Sample)
    by (now rewrite firstn_nil).
  replace (firstn (Z.to_nat (Py.len (@nil Sample) + L)) (@nil Sample))
    with (@nil Sample) by (now rewrite firstn_nil).
  destruct (0 <=? L); cbn [app]; rewrite map_repeat;
    f_equal; unfold Py.len; cbn [length]; lia.
Qed.

(** X13. An empty group, as a skipped sentence id leaves one, is treated
    differently by the two encoders: [encode_inputs] returns and encodes
    it as a row of pad indices in both arrays, [encode_outputs] raises
    [ValueError]. *)
Theorem empty_group_asymmetry (self : RNN_model) (sents : list DF.t)
  (cls : list string) (i : nat) :
  LabelEncoder.classes_ (encoder self) = Some cls ->
  nth_error sents i = Some [] ->
  (exists X,
      encode_inputs self sents = Return X
      /\ nth_error (word_inputs X) i
         = Some (repeat 0
                   (Z.to_nat (Z.min (max_observed sents) (sent_maxlen self))))
      /\ nth_error (predicate_inputs X) i
         = Some (repeat 0
                   (Z.to_nat (Z.min (max_observed sents) (sent_maxlen self)))))
  /\ encode_outputs self sents = Raise ValueError.
Proof.
  intros Hcls Hnth.
  assert (Hne : sents <> []) by (eapply nth_error_nonempty; eassumption).
  split.
  - destruct (encode_inputs_returns self sents Hne) as [X HX].
    exists X. split; [assumption |].
    apply encode_inputs_inv in HX as [_ HX].
    destruct (HX _ (fun _ => eq_refl)) as [Hw Hp]. rewrite Hw, Hp.
    split; rewrite (map_nth_error _ _ _ Hnth); f_equal;
      cbn [map]; apply (encode_column_empty_group Pad_sample).
  - destruct (encode_outputs self sents) as [Y | e] eqn:Hrun.
    + apply (encode_outputs_return_inv self sents cls Y Hcls) in Hrun
        as [_ Hall].
      destruct (Hall [] (nth_error_In _ _ Hnth)) as [Hbad _]. congruence.
    + f_equal. now apply (encode_outputs_raise_inv self sents cls).
Qed.

Lemma empty_group_asymmetry_witness :
  (exists X,
      encode_inputs (fst (load_dataset toy_model toy_df))
        [DF.where_run_id toy_df 0; DF.where_run_id toy_df 7] = Return X
      /\ nth_error (word_inputs X) 1 = Some [0; 0]
      /\ nth_error (predicate_inputs X) 1 = Some [0; 0])
  /\ encode_outputs (fst (load_dataset toy_model toy_df))
       [DF.where_run_id toy_df 0; DF.where_run_id toy_df 7]
     = Raise ValueError.
Proof.
  apply (empty_group_asymmetry (fst (load_dataset toy_model toy_df))
           [DF.where_run_id toy_df 0; DF.where_run_id toy_df 7]
           ["A0-B"; "O"; "P-B"] 1); reflexivity.
Defined.

(** X14. [load_dataset] returns exactly on the files that span two ids or
    more without a gap between their ids; on every other file, the empty
    one and the one-sentence one among them, it raises [ValueError]. *)
Theorem load_dataset_outcome (self : RNN_model) (df : DF.t) :
  (loadable df <-> exists X Y, snd (load_dataset self df) = Return (X, Y))
  /\ (forall e, snd (load_dataset self df) = Raise e -> e = ValueError).
Proof.
  split; [split |].
  - intros [Hspan Hfill]. now apply load_dataset_returns.
  - intros (X & Y & Hrun). unfold load_dataset in Hrun. cbn [snd] in Hrun.
    set (self' := mkRNN_model _ _ _) in Hrun.
    destruct df as [| r0 rest]; [discriminate |].
    destruct (get_sents_from_df_groups (r0 :: rest))
      as (lo & hi & Hsents & [Hlo_in Hlo] & [Hhi_in Hhi]); [discriminate |].
    set (df := r0 :: rest) in *.
    rewrite Hsents in Hrun. cbn [bind] in Hrun.
    destruct (encode_inputs self' _) as [X' |] eqn:HX; [| discriminate].
    cbn [bind] in Hrun.
    destruct (encode_outputs self' _) as [Y' |] eqn:HY; [| discriminate].
    apply encode_inputs_inv in HX as [Hne _].
    apply (encode_outputs_return_inv self' _ _ Y' eq_refl) in HY
      as [_ Hgroups].
    assert (Hlt : lo < hi).
    { destruct (Z_lt_ge_dec lo hi) as [Hlt | Hge]; [assumption |].
      exfalso. apply Hne. unfold Py.range.
      replace (Z.to_nat (hi - lo)) with 0%nat by lia. reflexivity. }
    apply in_map_iff in Hlo_in as (rlo & Hrlo & Hrlo_in).
    apply in_map_iff in Hhi_in as (rhi & Hrhi & Hrhi_in).
    split.
    + exists rlo, rhi. repeat split; try assumption. lia.
    + intros i r1 r2 Hr1 Hr2 Hi.
      specialize (Hlo r1 Hr1). specialize (Hhi r2 Hr2).
      destruct (Z.eq_dec i hi) as [-> | Hneq]; [now exists rhi |].
      destruct (Hgroups (DF.where_run_id df i)) as [Hgroup _].
      { apply in_map. apply range_In. lia. }
      destruct (DF.where_run_id df i) as [| r rows] eqn:Hwhere;
        [congruence |].
      assert (Hr : In r (DF.where_run_id df i))
        by (rewrite Hwhere; now left).
      apply where_run_id_In in Hr. now exists r.
  - intros e Hrun. unfold load_dataset in Hrun. cbn [snd] in Hrun.
    set (self' := mkRNN_model _ _ _) in Hrun.
    destruct (get_sents_from_df df) as [sents |] eqn:Hsents.
    + cbn [bind] in Hrun.
      pose proof (encode_inputs_outcome_cases self' sents) as Hin.
      destruct (encode_inputs self' sents) as [X |] eqn:HX.
      * cbn [bind] in Hrun.
        destruct (encode_outputs self' sents) as [Y |] eqn:HY;
          [discriminate |].
        injection Hrun as <-.
        now apply (encode_outputs_raise_inv self' sents _ _ eq_refl).
      * injection Hrun as <-. destruct Hin as [[X' HX'] | Hraise];
          congruence.
    + injection Hrun as <-. destruct df as [| r0 rest].
      * cbn in Hsents. congruence.
      * destruct (get_sents_from_df_groups (r0 :: rest))
          as (lo & hi & Hret & _); [discriminate |]. congruence.
Qed.

(** ** The width of the one-hot rows *)

Lemma one_hot_length (n k : Z) : Py.len (np.one_hot n k) = Z.max 0 n.
Proof.
  unfold np.one_hot, Py.len. rewrite length_map, range_length. lia.
Qed.

Lemma one_hot_nth (n k c : Z) :
  0 <= c < n ->
  nth_error (np.one_hot n k) (Z.to_nat c) = Some (if c =? k then 1 else 0).
Proof.
  intros Hc. unfold np.one_hot.
  rewrite nth_error_map, range_nth by lia. cbn [option_map].
  now replace (0 + Z.of_nat (Z.to_nat c)) with c by lia.
Qed.

(** What [encode_outputs] returns, group by group, with the width that
    [to_categorical] chose for each group. *)
Lemma encode_outputs_rows (self : RNN_model) (sents : list DF.t)
  (Y : EncodedOutput) :
  encode_outputs self sents = Return Y ->
  exists encodings,
    Forall2 (fun sent rows =>
               exists indices m,
                 LabelEncoder.transform (encoder self) (map DF.label sent)
                 = Return indices
                 /\ Py.max indices = Return m
                 /\ rows = map (np.one_hot (m + 1)) indices) sents encodings
    /\ Y = map (fun rows =>
                  pad_one
                    (effective_maxlen (max_observed sents)
                       (Some (sent_maxlen self)))
                    rows (np.zeros (num_of_classes self))) encodings.
Proof.
  unfold encode_outputs. intros Hrun.
  match type of Hrun with
  | bind ?loop _ = _ => destruct loop as [encodings |] eqn:Hloop
  end; [| discriminate].
  cbn [bind] in Hrun. apply pad_sequences_pure_inv in Hrun as [_ ->].
  apply for_each_Forall2 in Hloop. exists encodings.
  assert (Hall : Forall2 (fun sent rows =>
               exists indices m,
                 LabelEncoder.transform (encoder self) (map DF.label sent)
                 = Return indices
                 /\ Py.max indices = Return m
                 /\ rows = map (np.one_hot (m + 1)) indices) sents encodings).
  { eapply Forall2_impl; [| exact Hloop]. cbv beta. intros s rows Hs.
    destruct (LabelEncoder.transform (encoder self) (map DF.label s))
      as [y |] eqn:Ht; [| discriminate].
    cbn [bind] in Hs. apply to_categorical_inv in Hs as (m & Hm & ->).
    now exists y, m. }
  split; [assumption |].
  apply map_ext. intros rows. do 2 f_equal. apply max_observed_ext.
  clear - Hall.
  induction Hall as [| s rows ss rs (indices & m & Ht & _ & ->) _ IH].
  - reflexivity.
  - cbn [map]. rewrite IH. f_equal.
    apply transform_inv in Ht as (cls & _ & _ & ->).
    unfold Py.len. now rewrite !length_map.
Qed.

Lemma searchsorted_bound (cls : list string) (l : string) :
  In l cls -> 0 <= np.searchsorted cls l < Py.len cls.
Proof.
  unfold Py.len. induction cls as [| x cls' IH]; intros Hin; [destruct Hin |].
  cbn [np.searchsorted length].
  destruct (String_as_OT.compare x l) eqn:Hc; try lia.
  destruct Hin as [-> | Hin].
  - rewrite LabelEncoderFacts.compare_refl in Hc. discriminate.
  - specialize (IH Hin). lia.
Qed.

(** X15. The one-hot rows of a sentence are as wide as the greatest class
    index that occurs in that sentence plus one, which can be less than
    [num_of_classes], the width of the pad rows: the row of a table row
    holds a 1 at the index of its label and a 0 at the other positions up
    to that width. *)
Theorem one_hot_rows_width (self : RNN_model) (sents : list DF.t)
  (Y : EncodedOutput) (i j : nat) (sent : DF.t) (r : DF.row) :
  encode_outputs self sents = Return Y ->
  nth_error sents i = Some sent ->
  nth_error sent j = Some r ->
  (j < Z.to_nat (Z.min (max_observed sents) (sent_maxlen self)))%nat ->
  exists y row indices m k,
    nth_error Y i = Some y
    /\ nth_error y j = Some row
    /\ LabelEncoder.transform (encoder self) (map DF.label sent)
       = Return indices
    /\ Py.max indices = Return m
    /\ LabelEncoder.transform (encoder self) [DF.label r] = Return [k]
    /\ 0 <= k <= m
    /\ m < num_of_classes self
    /\ Py.len row = m + 1
    /\ forall c, 0 <= c <= m ->
         nth_error row (Z.to_nat c) = Some (if c =? k then 1 else 0).
Proof.
  intros HY Hsent Hr Hj.
  destruct (encode_outputs_rows self sents Y HY) as (encodings & Hall & ->).
  destruct (Forall2_nth_error _ _ _ _ _ Hall Hsent)
    as (rows & Hrows & indices & m & Ht & Hm & ->).
  pose proof Ht as Ht'.
  apply transform_inv in Ht' as (cls & Hcls & Hknown & Hidx).
  set (k := np.searchsorted cls (DF.label r)).
  assert (Hlabel : In (DF.label r) cls).
  { apply Hknown, in_map. eapply nth_error_In, Hr. }
  assert (Hk : nth_error indices j = Some k).
  { rewrite Hidx, !nth_error_map, Hr. reflexivity. }
  assert (Hmax : In m indices /\ forall x, In x indices -> x <= m).
  { destruct indices as [| x xs]; [discriminate |].
    destruct (Py_max_spec (x :: xs)) as (m' & Hm' & Hspec);
      [discriminate |].
    assert (m' = m) by congruence. now subst m'. }
  destruct Hmax as [Hm_in Hm_ub].
  assert (Hkm : 0 <= k <= m).
  { split; [apply (searchsorted_bound cls _ Hlabel) |].
    apply Hm_ub. eapply nth_error_In, Hk. }
  assert (Hmc : m < num_of_classes self).
  { unfold num_of_classes. rewrite Hcls. rewrite Hidx in Hm_in.
    apply in_map_iff in Hm_in as (l & <- & Hl).
    apply searchsorted_bound. now apply Hknown. }
  exists (pad_one (Z.min (max_observed sents) (sent_maxlen self))
            (map (np.one_hot (m + 1)) indices)
            (np.zeros (num_of_classes self))),
    (np.one_hot (m + 1) k), indices, m, k.
  split; [exact (map_nth_error _ _ _ Hrows) |].
  split.
  { rewrite pad_one_nth by assumption.
    now rewrite nth_error_map, Hk. }
  split; [assumption |]. split; [assumption |].
  split; [now apply transform_one |].
  split; [assumption |]. split; [assumption |].
  split; [rewrite one_hot_length; lia |].
  intros c Hc. apply one_hot_nth. lia.
Qed.

Lemma one_hot_rows_width_witness :
  exists y row indices m k,
    nth_error [ [[1; 0; 0]; [0; 0; 1]; [0; 0; 0]];
                [[1; 0; 0]; [0; 0; 1]; [0; 1; 0]] ] 1 = Some y
    /\ nth_error y 2 = Some row
    /\ LabelEncoder.transform (encoder (fst (load_dataset toy_model toy_df)))
         (map DF.label (DF.where_run_id toy_df 1))
       = Return indices
    /\ Py.max indices = Return m
    /\ LabelEncoder.transform (encoder (fst (load_dataset toy_model toy_df)))
         ["O"] = Return [k]
    /\ 0 <= k <= m
    /\ m < num_of_classes (fst (load_dataset toy_model toy_df))
    /\ Py.len row = m + 1
    /\ forall c, 0 <= c <= m ->
         nth_error row (Z.to_nat c) = Some (if c =? k then 1 else 0).
Proof.
  apply (one_hot_rows_width (fst (load_dataset toy_model toy_df))
           [DF.where_run_id toy_df 0; DF.where_run_id toy_df 1]
           _ 1 2 (DF.where_run_id toy_df 1) (DF.mkRow 1 "down" "sat" "O"));
    [reflexivity | reflexivity | reflexivity | vm_compute; lia].
Defined.

(** A sentence without the last class gets narrower rows than the pad. *)
Example encode_outputs_ragged :
  let df := [ DF.mkRow 0 "dogs" "bark" "A0-B";
              DF.mkRow 1 "cats" "sat" "A0-B"; DF.mkRow 1 "sat" "sat" "P-B";
              DF.mkRow 2 "sing" "sing" "P-B" ] in
  snd (load_dataset toy_model df)
  = Return (mkEncodedInput [[4; 0]; [4; 3]] [[4; 0]; [3; 3]],
            [ [[1]; [0; 0]]; [[1; 0]; [0; 1]] ]).
Proof. reflexivity. Qed.

(** ** [am]: the indices by decreasing value *)

Section Argmaxes.

Context {P : Type}.
Variable ltb : P -> P -> bool.

Lemma insert_reverse_perm {A B : Type} (key : A -> B)
  (lt : B -> B -> bool) (x : A) (l : list A) :
  Permutation (PySeq.insert_reverse key lt x l) (x :: l).
Proof.
  induction l as [| y l' IH]; cbn [PySeq.insert_reverse]; [reflexivity |].
  destruct (lt (key x) (key y)); [| reflexivity].
  rewrite IH. apply perm_swap.
Qed.

Lemma sorted_reverse_perm {A B : Type} (key : A -> B)
  (lt : B -> B -> bool) (l : list A) :
  Permutation (PySeq.sorted_reverse key lt l) l.
Proof.
  unfold PySeq.sorted_reverse.
  induction l as [| x l' IH]; cbn [fold_right]; [reflexivity |].
  rewrite insert_reverse_perm. now constructor.
Qed.

Lemma map_fst_combine {A B : Type} (a : list A) (b : list B) :
  length a = length b -> map fst (combine a b) = a.
Proof.
  revert b. induction a as [| x a' IH]; intros [| y b'] Hlen;
    try discriminate; [reflexivity |].
  cbn [combine map fst]. f_equal. apply IH. now injection Hlen.
Qed.

Lemma enumerate_indices (l : list P) :
  map fst (PySeq.enumerate l) = Py.range 0 (Py.len l).
Proof.
  unfold PySeq.enumerate. apply map_fst_combine.
  rewrite range_length. unfold Py.len. lia.
Qed.

Lemma combine_range_In (lo : Z) (l : list P) (i : Z) (v : P) :
  In (i, v) (combine (Py.range lo (lo + Py.len l)) l)
  <-> lo <= i /\ nth_error l (Z.to_nat (i - lo)) = Some v.
Proof.
  revert lo. induction l as [| x l' IH]; intros lo.
  - unfold Py.range, Py.len. cbn [length].
    replace (Z.to_nat (lo + Z.of_nat 0 - lo)) with 0%nat by lia.
    cbn [seq map combine In].
    split; [tauto |]. intros [_ Hnth].
    destruct (Z.to_nat (i - lo)); discriminate.
  - unfold Py.len. cbn [length].
    replace (lo + Z.of_nat (Datatypes.S (length l')))
      with ((lo + 1) + Py.len l') by (unfold Py.len; lia).
    assert (Hrange : Py.range lo (lo + 1 + Py.len l')
                     = lo :: Py.range (lo + 1) (lo + 1 + Py.len l')).
    { unfold Py.range.
      replace (Z.to_nat (lo + 1 + Py.len l' - lo))
        with (Datatypes.S (length l')) by (unfold Py.len; lia).
      replace (Z.to_nat (lo + 1 + Py.len l' - (lo + 1)))
        with (length l') by (unfold Py.len; lia).
      cbn [seq map]. f_equal; [lia |].
      rewrite <- seq_shift, map_map. apply map_ext. intros k. lia. }
    rewrite Hrange. cbn [combine In]. rewrite IH. split.
    + intros [Heq | [Hlo Hnth]].
      * injection Heq as <- <-. split; [lia |].
        now replace (Z.to_nat (lo - lo)) with 0%nat by lia.
      * split; [lia |].
        replace (Z.to_nat (i - lo))
          with (Datatypes.S (Z.to_nat (i - (lo + 1)))) by lia.
        exact Hnth.
    + intros [Hlo Hnth].
      destruct (Z.eq_dec i lo) as [-> | Hneq].
      * left. replace (Z.to_nat (lo - lo)) with 0%nat in Hnth by lia.
        cbn [nth_error] in Hnth. congruence.
      * right. split; [lia |].
        replace (Z.to_nat (i - lo))
          with (Datatypes.S (Z.to_nat (i - (lo + 1)))) in Hnth by lia.
        exact Hnth.
Qed.

(** The pairs of [enumerate(l)] are the positions of [l] with their
    entries. *)
Lemma enumerate_In (l : list P) (i : Z) (v : P) :
  In (i, v) (PySeq.enumerate l)
  <-> 0 <= i /\ nth_error l (Z.to_nat i) = Some v.
Proof.
  unfold PySeq.enumerate.
  rewrite (combine_range_In 0 l i v). now rewrite Z.sub_0_r.
Qed.

Lemma range_sorted (lo hi : Z) : StronglySorted Z.lt (Py.range lo hi).
Proof.
  unfold Py.range. generalize (Z.to_nat (hi - lo)) as n. intros n.
  generalize 0%nat as s. induction n as [| n IH]; intros s; cbn [seq map].
  - constructor.
  - constructor; [apply IH |].
    apply Forall_forall. intros z Hz.
    apply in_map_iff in Hz as (k & <- & Hk). apply in_seq in Hk. lia.
Qed.

Hypothesis ltb_asym : forall a b, ltb a b = true -> ltb b a = false.
Hypothesis ltb_negtrans :
  forall a b c, ltb a c = true -> ltb a b = true \/ ltb b c = true.

Lemma insert_reverse_sorted (p : Z * P) (s : list (Z * P)) :
  StronglySorted (before ltb) s ->
  (forall q, In q s -> fst p < fst q) ->
  StronglySorted (before ltb) (PySeq.insert_reverse snd ltb p s).
Proof.
  induction 1 as [| y s' Hsorted IH Hall]; intros Hidx.
  - repeat constructor.
  - cbn [PySeq.insert_reverse].
    destruct (ltb (snd p) (snd y)) eqn:Hlt.
    + constructor.
      * apply IH. intros q Hq. apply Hidx. now right.
      * apply Forall_forall. intros q Hq.
        apply (Permutation_in _ (insert_reverse_perm snd ltb p s')) in Hq.
        destruct Hq as [<- | Hq].
        -- split; [now apply ltb_asym | intros Hge; congruence].
        -- rewrite Forall_forall in Hall. now apply Hall.
    + constructor; [now constructor |].
      constructor.
      * split; [assumption | intros _; apply Hidx; now left].
      * apply Forall_forall. intros q Hq.
        rewrite Forall_forall in Hall. destruct (Hall q Hq) as [Hyq _].
        split; [| intros _; apply Hidx; now right].
        destruct (ltb (snd p) (snd q)) eqn:Hpq; [| reflexivity].
        destruct (ltb_negtrans _ (snd y) _ Hpq); congruence.
Qed.

Lemma sorted_reverse_sorted (ps : list (Z * P)) :
  StronglySorted Z.lt (map fst ps) ->
  StronglySorted (before ltb) (PySeq.sorted_reverse snd ltb ps).
Proof.
  unfold PySeq.sorted_reverse.
  induction ps as [| p ps' IH]; intros Hidx; cbn [fold_right].
  - constructor.
  - cbn [map] in Hidx. apply StronglySorted_inv in Hidx as [Hrest Hp].
    apply insert_reverse_sorted; [now apply IH |].
    intros q Hq.
    apply (Permutation_in _ (sorted_reverse_perm snd ltb ps')) in Hq.
    rewrite Forall_forall in Hp. apply Hp. now apply in_map.
Qed.

Lemma am_pairs_sorted (l : list P) :
  StronglySorted (before ltb) (PySeq.sorted_reverse snd ltb (PySeq.enumerate l)).
Proof.
  apply sorted_reverse_sorted. rewrite enumerate_indices. apply range_sorted.
Qed.

Lemma am_pairs_In (l : list P) (i : Z) (v : P) :
  In (i, v) (PySeq.sorted_reverse snd ltb (PySeq.enumerate l))
  <-> 0 <= i /\ nth_error l (Z.to_nat i) = Some v.
Proof.
  rewrite <- enumerate_In. split; apply Permutation_in;
    [| symmetry]; apply sorted_reverse_perm.
Qed.

End Argmaxes.

Lemma StronglySorted_nth {A : Type} (R : A -> A -> Prop) (l : list A)
  (p q : nat) (a b : A) :
  StronglySorted R l -> (p < q)%nat ->
  nth_error l p = Some a -> nth_error l q = Some b -> R a b.
Proof.
  intros Hsorted. revert p q.
  induction Hsorted as [| x l' _ IH Hall]; intros p q Hpq Hp Hq.
  - destruct p; discriminate.
  - destruct q as [| q]; [lia |]. cbn [nth_error] in Hq.
    destruct p as [| p].
    + injection Hp as ->. rewrite Forall_forall in Hall.
      apply Hall. eapply nth_error_In, Hq.
    + cbn [nth_error] in Hp. apply (IH p q); [lia | assumption..].
Qed.

Lemma nth_error_map_fst {A B : Type} (ps : list (A * B)) (p : nat) (a : A) :
  nth_error (map fst ps) p = Some a ->
  exists b, nth_error ps p = Some (a, b).
Proof.
  rewrite nth_error_map. destruct (nth_error ps p) as [[a' b] |];
    [| discriminate].
  cbn [option_map fst]. intros [= <-]. now exists b.
Qed.

(** X16. [am] returns every position of its argument exactly once: its
    result is a rearrangement of [range(len(myList))]. *)
Theorem am_permutation {P : Type} (ltb : P -> P -> bool) (myList : list P) :
  Permutation (am ltb myList) (Py.range 0 (Py.len myList)).
Proof.
  unfold am. rewrite <- enumerate_indices.
  apply Permutation_map, sorted_reverse_perm.
Qed.

(** X17. [am] lists the positions by decreasing value and, among values of
    which neither is less than the other, by increasing position: of two
    positions in the result, the value at the later one is not greater,
    and when it is not less either, the later position is the greater
    one. The comparison is assumed to order the values (asymmetric, and
    negatively transitive, as [<] is on floats that are not NaN). *)
Theorem am_sorted {P : Type} (ltb : P -> P -> bool) (myList : list P)
  (p q : nat) (i j : Z) (vi vj : P) :
  (forall a b, ltb a b = true -> ltb b a = false) ->
  (forall a b c, ltb a c = true -> ltb a b = true \/ ltb b c = true) ->
  (p < q)%nat ->
  nth_error (am ltb myList) p = Some i ->
  nth_error (am ltb myList) q = Some j ->
  nth_error myList (Z.to_nat i) = Some vi ->
  nth_error myList (Z.to_nat j) = Some vj ->
  ltb vi vj = false /\ (ltb vj vi = false -> i < j).
Proof.
  intros Hasym Hneg Hpq Hp Hq Hvi Hvj. unfold am in Hp, Hq.
  apply nth_error_map_fst in Hp as [vi' Hp].
  apply nth_error_map_fst in Hq as [vj' Hq].
  pose proof (proj1 (am_pairs_In ltb myList i vi') (nth_error_In _ _ Hp))
    as [_ Hi].
  pose proof (proj1 (am_pairs_In ltb myList j vj') (nth_error_In _ _ Hq))
    as [_ Hj].
  assert (vi' = vi) by congruence. assert (vj' = vj) by congruence. subst.
  exact (StronglySorted_nth _ _ p q _ _
           (am_pairs_sorted ltb Hasym Hneg myList) Hpq Hp Hq).
Qed.

(** X18. On a non-empty argument the first index [am] returns is the
    first position of a greatest value: no entry is greater than the
    entry there, and every other entry that is not less stands at a
    later position. *)
Theorem am_head_is_argmax {P : Type} (ltb : P -> P -> bool)
  (myList : list P) :
  (forall a b, ltb a b = true -> ltb b a = false) ->
  (forall a b c, ltb a c = true -> ltb a b = true \/ ltb b c = true) ->
  myList <> [] ->
  exists i rest v,
    am ltb myList = i :: rest
    /\ 0 <= i
    /\ nth_error myList (Z.to_nat i) = Some v
    /\ forall (j : nat) (w : P),
         nth_error myList j = Some w ->
         ltb v w = false /\ (ltb w v = false -> i <= Z.of_nat j).
Proof.
  intros Hasym Hneg Hne.
  pose proof (am_pairs_sorted ltb Hasym Hneg myList) as Hsorted.
  pose proof (am_pairs_In ltb myList) as Hin.
  unfold am.
  destruct (PySeq.sorted_reverse snd ltb (PySeq.enumerate myList))
    as [| [i v] ps] eqn:Hps.
  - exfalso. destruct myList as [| x rest]; [congruence |].
    destruct (proj2 (Hin 0 x)) as []. split; [lia | reflexivity].
  - exists i, (map fst ps), v. split; [reflexivity |].
    destruct (proj1 (Hin i v) (or_introl eq_refl)) as [Hi Hv].
    split; [assumption |]. split; [assumption |].
    intros j w Hw.
    assert (Hjw : In (Z.of_nat j, w) ((i, v) :: ps)).
    { apply Hin. split; [lia |]. now rewrite Nat2Z.id. }
    apply StronglySorted_inv in Hsorted as [_ Hall].
    rewrite Forall_forall in Hall.
    destruct Hjw as [Heq | Hjw].
    + injection Heq as -> ->. split; [| lia].
      destruct (ltb w w) eqn:Hww; [| reflexivity].
      now rewrite (Hasym _ _ Hww) in Hww.
    + destruct (Hall _ Hjw) as [Hle Hidx]. cbn [fst snd] in *.
      split; [assumption |]. intros Hge. specialize (Hidx Hge). lia.
Qed.

Lemma Z_ltb_asym (a b : Z) : (a <? b) = true -> (b <? a) = false.
Proof. rewrite Z.ltb_lt, Z.ltb_ge. lia. Qed.

Lemma Z_ltb_negtrans (a b c : Z) :
  (a <? c) = true -> (a <? b) = true \/ (b <? c) = true.
Proof. rewrite !Z.ltb_lt. lia. Qed.

Lemma am_sorted_witness :
  (9 <? 9) = false /\ ((9 <? 9) = false -> 1 < 2).
Proof.
  apply (am_sorted Z.ltb [3; 9; 9; 1] 0 1 1 2 9 9
           Z_ltb_asym Z_ltb_negtrans); [lia | reflexivity..].
Defined.

Lemma am_head_is_argmax_witness :
  exists i rest v,
    am Z.ltb [3; 9; 9; 1] = i :: rest
    /\ 0 <= i
    /\ nth_error [3; 9; 9; 1] (Z.to_nat i) = Some v
    /\ forall (j : nat) (w : Z),
         nth_error [3; 9; 9; 1] j = Some w ->
         (v <? w) = false /\ ((w <? v) = false -> i <= Z.of_nat j).
Proof.
  apply (am_head_is_argmax Z.ltb [3; 9; 9; 1] Z_ltb_asym Z_ltb_negtrans).
  discriminate.
Defined.

Example am_toy : am Z.ltb [3; 9; 9; 1] = [1; 2; 0; 3].
Proof. reflexivity. Qed.

(** ** [sample_labels] *)

Lemma traverse_inr_Forall2 {E A B : Type} (f : A -> E + B) (l : list A)
  (bs : list B) :
  traverse f l = inr bs -> Forall2 (fun a b => f a = inr b) l bs.
Proof.
  revert bs. induction l as [| a l' IH]; intros bs Hrun; cbn in Hrun.
  - injection Hrun as <-. constructor.
  - destruct (f a) as [e | b] eqn:Hfa; [discriminate |].
    destruct (traverse f l') as [e | bs']; [discriminate |].
    injection Hrun as <-. constructor; [assumption | now apply IH].
Qed.



Lemma getitem_nonneg {A : Type} (l : list A) (i : Z) (a : A) :
  0 <= i ->
  (PySeq.getitem l i = Some a <-> nth_error l (Z.to_nat i) = Some a).
Proof.
  intros Hi. unfold PySeq.getitem.
  destruct (Z.ltb_spec i 0) as [Hneg | _]; [lia |].
  destruct (Z.leb_spec 0 i) as [_ | Hneg]; [| lia]. cbn [andb].
  destruct (Z.ltb_spec i (Py.len l)) as [Hlt | Hge]; [reflexivity |].
  split; [discriminate |]. intros Hnth.
  assert (Hsome : nth_error l (Z.to_nat i) <> None) by congruence.
  apply nth_error_Some in Hsome. unfold Py.len in Hge. lia.
Qed.

Lemma getitem_None {A : Type} (l : list A) (i : Z) :
  0 <= i -> (PySeq.getitem l i = None <-> Py.len l <= i).
Proof.
  intros Hi. unfold PySeq.getitem.
  destruct (Z.ltb_spec i 0) as [Hneg | _]; [lia |].
  destruct (Z.leb_spec 0 i) as [_ | Hneg]; [| lia]. cbn [andb].
  destruct (Z.ltb_spec i (Py.len l)) as [Hlt | Hge].
  - split; [| lia]. intros Hnone. apply nth_error_None in Hnone.
    unfold Py.len in Hlt. lia.
  - split; [lia | reflexivity].
Qed.

Lemma firstn_incl {A : Type} (n : nat) (l : list A) (a : A) :
  In a (firstn n l) -> In a l.
Proof.
  intros Hin. rewrite <- (firstn_skipn n l). apply in_or_app. now left.
Qed.

Lemma slice_to_In {A : Type} (l : list A) (k : Z) (a : A) :
  In a (Py.slice_to l k) -> In a l.
Proof.
  unfold Py.slice_to. destruct (0 <=? k); apply firstn_incl.
Qed.

Lemma am_In {P : Type} (ltb : P -> P -> bool) (word : list P) (ind : Z) :
  In ind (am ltb word) <-> 0 <= ind < Py.len word.
Proof.
  rewrite <- (range_In 0 (Py.len word) ind), <- enumerate_indices.
  unfold am. split; apply Permutation_in, Permutation_map;
    [| symmetry]; apply sorted_reverse_perm.
Qed.

(** Line 304 raises exactly for an index that is not a class index. *)
Lemma labelled_prob_outcome {P : Type} (cls : list string) (word : list P)
  (ind : Z) :
  0 <= ind < Py.len word ->
  (Py.len cls <= ind /\ labelled_prob cls word ind = inl IndexError)
  \/ (ind < Py.len cls
      /\ exists c p,
          labelled_prob cls word ind = inr (c, p)
          /\ PySeq.getitem cls ind = Some c
          /\ PySeq.getitem word ind = Some p).
Proof.
  intros Hind. unfold labelled_prob.
  destruct (nth_error word (Z.to_nat ind)) as [p |] eqn:Hp.
  2: { apply nth_error_None in Hp. unfold Py.len in Hind. lia. }
  apply (getitem_nonneg word ind p) in Hp; [| lia]. rewrite Hp.
  destruct (PySeq.getitem cls ind) as [c |] eqn:Hc.
  - right. split; [| now exists c, p].
    destruct (Z_lt_ge_dec ind (Py.len cls)) as [Hlt | Hge]; [assumption |].
    assert (Hnone : PySeq.getitem cls ind = None)
      by (apply getitem_None; lia).
    congruence.
  - left. split; [| reflexivity]. apply getitem_None in Hc; lia.
Qed.




Lemma Forall2_nth_error_r {A B : Type} (R : A -> B -> Prop) (l : list A)
  (l' : list B) (i : nat) (b : B) :
  Forall2 R l l' -> nth_error l' i = Some b ->
  exists a, nth_error l i = Some a /\ R a b.
Proof.
  intros Hall. revert i. induction Hall as [| x y xs ys Hxy _ IH]; intros i.
  - destruct i; discriminate.
  - destruct i as [| i]; simpl.
    + intros [= <-]. now exists x.
    + apply IH.
Qed.

Lemma Forall2_impl_In {A B : Type} (R Q : A -> B -> Prop) (l : list A)
  (l' : list B) :
  Forall2 R l l' -> (forall a b, In a l -> R a b -> Q a b) -> Forall2 Q l l'.
Proof.
  induction 1 as [| x y xs ys Hxy _ IH]; intros Himpl; constructor.
  - apply Himpl; [now left | assumption].
  - apply IH. intros a b Ha. apply Himpl. now right.
Qed.

Lemma StronglySorted_firstn {A : Type} (R : A -> A -> Prop) (n : nat)
  (l : list A) :
  StronglySorted R l -> StronglySorted R (firstn n l).
Proof.
  intros Hsorted. revert n.
  induction Hsorted as [| x l' _ IH Hall]; intros [| n]; cbn [firstn];
    try constructor; [apply IH |].
  apply Forall_forall. intros z Hz. rewrite Forall_forall in Hall.
  apply Hall. eapply firstn_incl, Hz.
Qed.

Lemma before_values_sorted {P : Type} (ltb : P -> P -> bool)
  (qs : list (Z * P)) :
  StronglySorted (before ltb) qs ->
  StronglySorted (fun p q => ltb p q = false) (map snd qs).
Proof.
  induction 1 as [| x qs' _ IH Hall]; cbn [map]; constructor;
    [assumption |].
  apply Forall_forall. intros v Hv. apply in_map_iff in Hv as (q & <- & Hq).
  rewrite Forall_forall in Hall. now destruct (Hall q Hq).
Qed.

(** The values looked up for a run of pairs of [enumerate] are the values
    of those pairs. *)
Lemma looked_up_values {P : Type} (cls : list string) (word : list P)
  (qs : list (Z * P)) (entry : list (string * P)) :
  (forall q, In q qs ->
     0 <= fst q /\ nth_error word (Z.to_nat (fst q)) = Some (snd q)) ->
  Forall2 (fun ind pr =>
             PySeq.getitem cls ind = Some (fst pr)
             /\ PySeq.getitem word ind = Some (snd pr)) (map fst qs) entry ->
  map snd entry = map snd qs.
Proof.
  revert entry. induction qs as [| q qs' IH]; intros entry Hqs Hall;
    cbn [map] in *.
  - inversion Hall. reflexivity.
  - inversion Hall as [| ? pr ? entry' [_ Hp] Hrest]; subst. cbn [map].
    destruct (Hqs q (or_introl eq_refl)) as [H0 Hq].
    apply getitem_nonneg in Hp; [| assumption].
    f_equal; [congruence |].
    apply IH; [| assumption]. intros q' Hq'. apply Hqs. now right.
Qed.

Lemma slice_to_firstn {A : Type} (l : list A) (k : Z) :
  exists n, Py.slice_to l k = firstn n l.
Proof. unfold Py.slice_to. destruct (0 <=? k); eexists; reflexivity. Qed.

(** X20. What [sample_labels] returns follows its argument position by
    position: entry [b] of sentence [a] belongs to word [b] of the sampled
    window of sentence [a], pairs each of that word's leading indices of
    [am] with the class and the value at that index, and lists the values
    in decreasing order. *)
Theorem sample_labels_entries {P : Type} (ltb : P -> P -> bool)
  (self : RNN_model) (cls : list string) (y : list (list (list P)))
  (ns nsamp nc start : Z) (ret : list (list (list (string * P))))
  (a b : nat) (cur : list (list (string * P))) (entry : list (string * P)) :
  (forall u v, ltb u v = true -> ltb v u = false) ->
  (forall u v w, ltb u w = true -> ltb u v = true \/ ltb v w = true) ->
  LabelEncoder.classes_ (encoder self) = Some cls ->
  sample_labels ltb self y ns nsamp nc start = inr ret ->
  nth_error ret a = Some cur ->
  nth_error cur b = Some entry ->
  length ret = length (Py.slice_to y ns)
  /\ exists sent word,
      nth_error (Py.slice_to y ns) a = Some sent
      /\ length cur = length (PySeq.slice sent start (start + nsamp))
      /\ nth_error (PySeq.slice sent start (start + nsamp)) b = Some word
      /\ Forall2 (fun ind pr =>
                    PySeq.getitem cls ind = Some (fst pr)
                    /\ PySeq.getitem word ind = Some (snd pr))
           (Py.slice_to (am ltb word) nc) entry
      /\ StronglySorted (fun p q => ltb p q = false) (map snd entry).
Proof.
  intros Hasym Hneg Hcls Hrun Hcur Hentry.
  unfold sample_labels in Hrun. rewrite Hcls in Hrun.
  apply traverse_inr_Forall2 in Hrun.
  split; [symmetry; eapply Forall2_length, Hrun |].
  destruct (Forall2_nth_error_r _ _ _ _ _ Hrun Hcur) as (sent & Hsent & Hs).
  cbv beta in Hs. apply traverse_inr_Forall2 in Hs.
  destruct (Forall2_nth_error_r _ _ _ _ _ Hs Hentry) as (word & Hword & Hw).
  cbv beta zeta in Hw. apply traverse_inr_Forall2 in Hw.
  exists sent, word. split; [assumption |].
  split; [symmetry; eapply Forall2_length, Hs |].
  split; [assumption |].
  assert (Hall : Forall2 (fun ind pr =>
                    PySeq.getitem cls ind = Some (fst pr)
                    /\ PySeq.getitem word ind = Some (snd pr))
                   (Py.slice_to (am ltb word) nc) entry).
  { eapply Forall2_impl_In; [exact Hw |]. intros ind pr Hind Hpr.
    assert (Hrange : 0 <= ind < Py.len word)
      by (eapply am_In, slice_to_In, Hind).
    destruct (labelled_prob_outcome cls word ind Hrange)
      as [[_ Hraise] | (_ & c & p & Hret & Hc & Hp)]; [congruence |].
    cbv beta in Hpr. rewrite Hret in Hpr. injection Hpr as <-. now split. }
  split; [assumption |].
  destruct (slice_to_firstn (am ltb word) nc) as [n Hn].
  rewrite Hn in Hall. unfold am in Hall. rewrite firstn_map in Hall.
  set (ps := PySeq.sorted_reverse snd ltb (PySeq.enumerate word)) in *.
  rewrite (looked_up_values cls word (firstn n ps) entry); [| | assumption].
  - apply before_values_sorted, StronglySorted_firstn.
    now apply am_pairs_sorted.
  - intros [i v] Hq. apply firstn_incl in Hq.
    now apply (am_pairs_In ltb word i v).
Qed.

Example sample_labels_toy :
  sample_labels Z.ltb (fst (load_dataset toy_model toy_df)) toy_prediction
    5 10 2 0
  = inr [ [ [("O", 70); ("P-B", 20)]; [("A0-B", 50); ("P-B", 50)] ] ].
Proof. reflexivity. Qed.

(** After the second file, with two classes, the same call fails. *)
Example sample_labels_after_refit :
  sample_labels Z.ltb
    (fst (load_dataset toy_model [DF.mkRow 0 "a" "b" "O"; DF.mkRow 1 "c" "d" "P-B"]))
    toy_prediction 5 10 3 0
  = inl IndexError.
Proof. reflexivity. Qed.


Lemma sample_labels_entries_witness :
  length [ [ [("O", 70); ("P-B", 20)]; [("A0-B", 50); ("P-B", 50)] ] ]
  = length (Py.slice_to toy_prediction 5)
  /\ exists sent word,
      nth_error (Py.slice_to toy_prediction 5) 0 = Some sent
      /\ length [ [("O", 70); ("P-B", 20)]; [("A0-B", 50); ("P-B", 50)] ]
         = length (PySeq.slice sent 0 (0 + 10))
      /\ nth_error (PySeq.slice sent 0 (0 + 10)) 1 = Some word
      /\ Forall2 (fun ind pr =>
                    PySeq.getitem ["A0-B"; "O"; "P-B"] ind = Some (fst pr)
                    /\ PySeq.getitem word ind = Some (snd pr))
           (Py.slice_to (am Z.ltb word) 2) [("A0-B", 50); ("P-B", 50)]
      /\ StronglySorted (fun p q => (p <? q) = false)
           (map snd [("A0-B", 50); ("P-B", 50)]).
Proof.
  apply (sample_labels_entries Z.ltb (fst (load_dataset toy_model toy_df))
           ["A0-B"; "O"; "P-B"] toy_prediction 5 10 2 0
           [ [ [("O", 70); ("P-B", 20)]; [("A0-B", 50); ("P-B", 50)] ] ]
           0 1 [ [("O", 70); ("P-B", 20)]; [("A0-B", 50); ("P-B", 50)] ]
           [("A0-B", 50); ("P-B", 50)] Z_ltb_asym Z_ltb_negtrans);
    reflexivity.
Defined.

(** ** [stack]: the order of the layers *)

Section StackFacts.

Context {T S : Type}.

Lemma stack_cons (x : T) (first : layer_thunk T S)
  (rest : list (layer_thunk T S)) (st : S) :
  stack x (first :: rest) st
  = (fst (first st) (fst (stack x rest (snd (first st)))),
     snd (stack x rest (snd (first st)))).
Proof.
  cbn [stack]. destruct (first st) as [outer st1]. cbn [fst snd].
  now destruct (stack x rest st1).
Qed.

Lemma construct_cons (first : layer_thunk T S)
  (rest : list (layer_thunk T S)) (st : S) :
  construct (first :: rest) st
  = (fst (first st) :: fst (construct rest (snd (first st))),
     snd (construct rest (snd (first st)))).
Proof.
  cbn [construct]. destruct (first st) as [f st1]. cbn [fst snd].
  now destruct (construct rest st1).
Qed.

Lemma stack_state (x : T) (layers : list (layer_thunk T S)) (st : S) :
  snd (stack x layers st) = snd (construct layers st).
Proof.
  revert st. induction layers as [| first rest IH]; intros st.
  - reflexivity.
  - rewrite stack_cons, construct_cons. cbn [snd]. apply IH.
Qed.

Lemma stack_value (x : T) (layers : list (layer_thunk T S)) (st : S) :
  fst (stack x layers st) = compose_layers (fst (construct layers st)) x.
Proof.
  revert st. induction layers as [| first rest IH]; intros st.
  - reflexivity.
  - rewrite stack_cons, construct_cons. cbn [fst compose_layers fold_right].
    f_equal. apply IH.
Qed.

Lemma construct_app (l1 l2 : list (layer_thunk T S)) (st : S) :
  construct (l1 ++ l2) st
  = (fst (construct l1 st) ++ fst (construct l2 (snd (construct l1 st))),
     snd (construct l2 (snd (construct l1 st)))).
Proof.
  revert st. induction l1 as [| first rest IH]; intros st.
  - cbn [app construct fst snd]. now destruct (construct l2 st).
  - cbn [app]. rewrite !construct_cons, IH. reflexivity.
Qed.

(** X21. [stack] makes the layers in the order of the list and applies
    them in the opposite order: the last layer of the list is applied to
    the input, [layers[0]] is applied last, to the output of all others. *)
Theorem stack_order (x : T) (layers : list (layer_thunk T S)) (st : S) :
  stack x layers st
  = (compose_layers (fst (construct layers st)) x,
     snd (construct layers st)).
Proof.
  rewrite <- (stack_value x), <- (stack_state x).
  now destruct (stack x layers st).
Qed.

(** X22. Stacking two lists of layers at once is stacking the second list
    on the input and the first list on the result, except that the layers
    of the first list are made first. *)
Theorem stack_app (x : T) (l1 l2 : list (layer_thunk T S)) (st : S) :
  stack x (l1 ++ l2) st
  = (fst (stack (fst (stack x l2 (snd (stack x l1 st)))) l1 st),
     snd (stack x l2 (snd (stack x l1 st)))).
Proof.
  apply injective_projections; cbn [fst snd].
  - rewrite (stack_value x (l1 ++ l2)), (stack_value _ l1), construct_app.
    cbn [fst]. rewrite (stack_value x l2), (stack_state x l1).
    unfold compose_layers. now rewrite fold_right_app.
  - rewrite (stack_state x (l1 ++ l2)), construct_app.
    now rewrite (stack_state x l2), (stack_state x l1).
Qed.

Variable Bidirectional_LSTM : Z -> layer_thunk T S.
Variable TimeDistributed_Dense : Z -> activation -> layer_thunk T S.

(** X23. [stack_latent_layers(n)] makes and applies exactly [n] recurrent
    layers, each by its own call of the constructor; for a count that is
    zero or negative it makes none and returns its input. *)
Theorem stack_latent_layers_count (hidden_units n : Z) (x : T) (st : S) :
  stack_latent_layers Bidirectional_LSTM hidden_units (Z.min n 0) x st
  = (x, st)
  /\ exists fs st',
      construct (repeat (Bidirectional_LSTM hidden_units) (Z.to_nat n)) st
      = (fs, st')
      /\ length fs = Z.to_nat n
      /\ stack_latent_layers Bidirectional_LSTM hidden_units n x st
         = (compose_layers fs x, st').
Proof.
  unfold stack_latent_layers, Py.replicate. split.
  - now replace (Z.to_nat (Z.min n 0)) with 0%nat by lia.
  - generalize (Z.to_nat n) as k. intros k.
    exists (fst (construct (repeat (Bidirectional_LSTM hidden_units) k) st)),
      (snd (construct (repeat (Bidirectional_LSTM hidden_units) k) st)).
    split; [now destruct (construct _ st) |].
    split.
    + revert st. induction k as [| k IH]; intros st; [reflexivity |].
      cbn [repeat]. rewrite construct_cons. cbn [fst length]. now rewrite IH.
    + rewrite <- (stack_value x), <- (stack_state x).
      now destruct (stack x _ st).
Qed.

(** X24. [predict_classes] fails on a model whose encoder was never
    fitted, before any layer is made. On a fitted model it makes the
    softmax layer, with as many outputs as there are classes, and then
    three ReLU layers of 1028 outputs, and applies the three ReLU layers
    to its input and the softmax layer on top. *)
Theorem predict_classes_order (self : RNN_model) (x : T) (st : S) :
  match LabelEncoder.classes_ (encoder self) with
  | None =>
      predict_classes TimeDistributed_Dense self x st
      = (inl AttributeError, st)
  | Some cls =>
      let top := TimeDistributed_Dense (Py.len cls) softmax st in
      let d1 := TimeDistributed_Dense 1028 relu (snd top) in
      let d2 := TimeDistributed_Dense 1028 relu (snd d1) in
      let d3 := TimeDistributed_Dense 1028 relu (snd d2) in
      predict_classes TimeDistributed_Dense self x st
      = (inr (fst top (fst d1 (fst d2 (fst d3 x)))), snd d3)
  end.
Proof.
  unfold predict_classes, num_of_classes.
  destruct (LabelEncoder.classes_ (encoder self)) as [cls |];
    [| reflexivity].
  cbv zeta.
  change (Py.replicate (TimeDistributed_Dense 1028 relu) 3)
    with [TimeDistributed_Dense 1028 relu; TimeDistributed_Dense 1028 relu;
          TimeDistributed_Dense 1028 relu].
  cbn [app]. rewrite !stack_cons. reflexivity.
Qed.

End StackFacts.

(** The two models of a slice agree where they meet: [l[0:k]] is
    [l[:k]]. *)
Lemma slice_from_zero {A : Type} (l : list A) (k : Z) :
  PySeq.slice l 0 k = Py.slice_to l k.
Proof.
  unfold PySeq.slice, Py.slice_to, PySeq.clamp.
  pose proof (len_nonneg l) as Hlen.
  destruct (Z.ltb_spec 0 0) as [Hlt | _]; [lia |].
  replace (Z.min 0 (Py.len l)) with 0 by lia. cbn [Z.to_nat skipn].
  rewrite Z.sub_0_r.
  destruct (Z.ltb_spec k 0) as [Hneg | Hpos].
  - destruct (Z.leb_spec 0 k) as [Hge | _]; [lia |]. f_equal. lia.
  - destruct (Z.leb_spec 0 k) as [_ | Hlt]; [| lia].
    destruct (Z_le_gt_dec k (Py.len l)) as [Hle | Hgt].
    + f_equal. lia.
    + rewrite !firstn_all2; [reflexivity | |]; unfold Py.len in *; lia.
Qed.
